(** * rc-screen: remote controlled projection screen (rc-screen.cc)

    A shallow embedding of the control firmware: the clock helpers, the
    [Screen] state machine with its motor outputs, the infrared receiver
    and command decoder, the [Monoflop], the comparator interrupt and the
    main loop, followed by the properties proved about them.

    Conventions of the embedding.
    - Target is an 8-bit AVR built with avr-gcc: [int] and [unsigned int]
      are 16 bits wide, [unsigned long] is 32 bits, [byte_t] is 8 bits.
      Integers are [Z] and every wrap-around is written out.
    - The memory-mapped input registers (PINA, PINB, TCNT1) are volatile:
      a function that reads them receives the sample it sees as a [Pins]
      argument.  The output registers PORTA and PORTB are part of the
      machine state.
    - Every member function of [Screen] is taken as one atomic step; the
      comparator interrupt is the step [event_rotation_tick] placed
      between two such steps.
    - The busy loops of the infrared receiver consume a list of line
      samples, one per call of [infrared_in()]; a loop still polling when
      the list ends is reported as such, not as a return. *)

From Stdlib Require Import ZArith List Bool Lia.
Import ListNotations.
Open Scope Z_scope.

(** ** Machine integers *)

(** [byte_t], i.e. unsigned char, and the 8-bit I/O registers. *)
Definition wrap8 (z : Z) : Z := z mod 2 ^ 8.

(** [unsigned short] and [unsigned int]: both 16 bits on this target. *)
Definition wrap16 (z : Z) : Z := z mod 2 ^ 16.

(** [unsigned long]. *)
Definition wrap32 (z : Z) : Z := z mod 2 ^ 32.

(** [short]: two's complement on 16 bits. *)
Definition swrap16 (z : Z) : Z := (z + 2 ^ 15) mod 2 ^ 16 - 2 ^ 15.

Definition AVR_MHZ : Z := 8.
Definition F_CPU : Z := wrap32 (AVR_MHZ * 1000000).

(** ** Ports *)

Definition IN_ENDSWITCH_B : Z := Z.shiftl 1 1.
Definition IN_IR_A : Z := Z.shiftl 1 7.
Definition IN_RESET_B : Z := Z.shiftl 1 3.
Definition OUT_STATUSLED_A : Z := Z.shiftl 1 4.
Definition OUT_MOT_DN_A : Z := Z.shiftl 1 6.
Definition OUT_MOT_UP_B : Z := Z.shiftl 1 0.
Definition OUT_STBIAS_A : Z := Z.shiftl 1 0.

(** One sample of the input registers. *)
Record Pins : Type := mkPins {
  PINA : Z;
  PINB : Z;
  TCNT1 : Z
}.

Definition infrared_in (p : Pins) : bool :=
  negb (Z.land (PINA p) IN_IR_A =? 0).

(** Active low: a cleared bit reads as [true]. *)
Definition endswitch_in (p : Pins) : bool :=
  Z.land (PINB p) IN_ENDSWITCH_B =? 0.

(** ** Clock *)

Module Clock.

(** [cycle_t] is unsigned short. *)
Definition now (p : Pins) : Z := wrap16 (TCNT1 p).

(** [ms * (F_CPU / 1024) / 1000]: the product is formed in unsigned long
    and the quotient is narrowed to [cycle_t] on return. *)
Definition ms_to_cycles (ms : Z) : Z :=
  wrap16 (wrap32 (wrap16 ms * (F_CPU / 1024)) / 1000).

(** [Clock::now() - earlier] on two [cycle_t] values: the operands are
    promoted to unsigned int, so the difference wraps on 16 bits. *)
Definition since (p : Pins) (earlier : Z) : Z := wrap16 (now p - earlier).

End Clock.

(** ** Infrared decoder *)

Inductive Button : Type :=
  | BUTTON_ON
  | BUTTON_OFF
  | BUTTON_UP
  | BUTTON_DOWN
  | BUTTON_SET
  | BUTTON_UNKNOWN.

(** [buffer[i]] for the 4-byte buffer the caller hands over. *)
Definition byte_at (buffer : list Z) (i : nat) : Z := nth i buffer 0.

Definition DecodeInfrared (buffer : list Z) : Button :=
  if negb (byte_at buffer 0 =? 0xE0) && negb (byte_at buffer 1 =? 0xD5)
  then BUTTON_UNKNOWN
  else
    let u := byte_at buffer 2 in
    let l := byte_at buffer 3 in
    if (u =? 0x04) && (l =? 0xFB) then BUTTON_ON
    else if (u =? 0x44) && (l =? 0xBB) then BUTTON_OFF
    else if (u =? 0x06) && (l =? 0xF9) then BUTTON_UP
    else if (u =? 0x26) && (l =? 0xD9) then BUTTON_DOWN
    else if (u =? 0x50) && (l =? 0xAF) then BUTTON_SET
    else BUTTON_UNKNOWN.

(** A well-formed frame: four bytes. *)
Definition is_frame (buffer : list Z) : Prop :=
  length buffer = 4%nat /\ Forall (fun b => 0 <= b < 256) buffer.

(** ** Monoflop *)

Module Monoflop.

Record t : Type := mk {
  duration_ : Z;
  trigger_time_ : Z;
  active_ : bool
}.

Definition Monoflop (cycles : Z) : t :=
  {| duration_ := wrap16 cycles; trigger_time_ := 0; active_ := false |}.

Definition trigger (p : Pins) (m : t) : t :=
  {| duration_ := duration_ m;
     trigger_time_ := Clock.now p;
     active_ := true |}.

Definition is_active (m : t) : bool := active_ m.

Definition regular_check (p : Pins) (m : t) : t :=
  if active_ m && (duration_ m <=? Clock.since p (trigger_time_ m))
  then {| duration_ := duration_ m;
          trigger_time_ := trigger_time_ m;
          active_ := false |}
  else m.

(** The main loop calls [regular_check] over and over; [checks] lists the
    clock samples of these calls, oldest first. *)
Definition regular_checks (checks : list Pins) (m : t) : t :=
  fold_left (fun acc p => regular_check p acc) checks m.

End Monoflop.

(** ** Screen *)

Definition SCREEN_UP_STOP_THRESHOLD : Z := -4.
Definition SCREEN_DN_STOP_THRESHOLD : Z := 258.

Inductive Direction : Type :=
  | DIR_NEUTRAL
  | DIR_UP
  | DIR_DOWN.

Inductive ErrorType : Type :=
  | ERR_NONE
  | ERR_SWITCH
  | ERR_ROTATION.

Definition Direction_eqb (a b : Direction) : bool :=
  match a, b with
  | DIR_NEUTRAL, DIR_NEUTRAL | DIR_UP, DIR_UP | DIR_DOWN, DIR_DOWN => true
  | _, _ => false
  end.

Definition ErrorType_eqb (a b : ErrorType) : bool :=
  match a, b with
  | ERR_NONE, ERR_NONE | ERR_SWITCH, ERR_SWITCH
  | ERR_ROTATION, ERR_ROTATION => true
  | _, _ => false
  end.

(** The enumerators' values; an [ErrorType] used as a condition is true
    when its value is not zero. *)
Definition ErrorType_value (e : ErrorType) : Z :=
  match e with
  | ERR_NONE => 0
  | ERR_SWITCH => 1
  | ERR_ROTATION => 2
  end.

Definition ErrorType_true (e : ErrorType) : bool :=
  negb (ErrorType_value e =? 0).

(** The data members of [Screen]. *)
Record Screen : Type := mkScreen {
  error_ : ErrorType;
  motor_dir_ : Direction;
  pos_ : Z;
  last_update_time_ : Z
}.

(** The screen object together with the two output registers it drives. *)
Record Machine : Type := mkMachine {
  screen : Screen;
  PORTA : Z;
  PORTB : Z
}.

Definition error (m : Machine) : ErrorType := error_ (screen m).

(** The constructor leaves [last_update_time_] uninitialised: [lut] is
    whatever the member happens to hold. *)
Definition Screen_ctor (lut : Z) : Screen :=
  {| error_ := ERR_NONE;
     motor_dir_ := DIR_NEUTRAL;
     pos_ := 0;
     last_update_time_ := lut |}.

(** The machine as [main] has it once the screen object exists: PORTB
    carries the pull-ups, PORTA still holds its power-on value. *)
Definition main_init (porta lut : Z) : Machine :=
  {| screen := Screen_ctor lut;
     PORTA := wrap8 porta;
     PORTB := wrap8 (Z.lor IN_RESET_B IN_ENDSWITCH_B) |}.

Definition up_stop_condition (p : Pins) (s : Screen) : bool :=
  ErrorType_true (error_ s)
  || (pos_ s <=? SCREEN_UP_STOP_THRESHOLD)
  || endswitch_in p.

Definition down_stop_condition (s : Screen) : bool :=
  ErrorType_true (error_ s)
  || (SCREEN_DN_STOP_THRESHOLD <=? pos_ s).

(** [PORT &= ~bit] and [PORT |= bit] on an 8-bit register. *)
Definition port_clear (port bit : Z) : Z := wrap8 (Z.land port (Z.lnot bit)).
Definition port_set (port bit : Z) : Z := wrap8 (Z.lor port bit).

Definition set_dir (d : Direction) (p : Pins) (m : Machine) : Machine :=
  let s := screen m in
  if Direction_eqb d (motor_dir_ s) then m
  else
    match d with
    | DIR_UP =>
        if negb (up_stop_condition p s) then
          {| screen := {| error_ := error_ s;
                          motor_dir_ := d;
                          pos_ := pos_ s;
                          last_update_time_ := Clock.now p |};
             PORTA := port_clear (PORTA m) OUT_MOT_DN_A;
             PORTB := port_set (PORTB m) OUT_MOT_UP_B |}
        else m
    | DIR_DOWN =>
        if negb (down_stop_condition s) then
          {| screen := {| error_ := error_ s;
                          motor_dir_ := d;
                          pos_ := pos_ s;
                          last_update_time_ := Clock.now p |};
             PORTA := port_set (PORTA m) OUT_MOT_DN_A;
             PORTB := port_clear (PORTB m) OUT_MOT_UP_B |}
        else m
    | DIR_NEUTRAL =>
        {| screen := {| error_ := error_ s;
                        motor_dir_ := d;
                        pos_ := pos_ s;
                        last_update_time_ := last_update_time_ s |};
           PORTA := port_clear (PORTA m) OUT_MOT_DN_A;
           PORTB := port_clear (PORTB m) OUT_MOT_UP_B |}
    end.

Definition with_error (e : ErrorType) (m : Machine) : Machine :=
  let s := screen m in
  {| screen := {| error_ := e;
                  motor_dir_ := motor_dir_ s;
                  pos_ := pos_ s;
                  last_update_time_ := last_update_time_ s |};
     PORTA := PORTA m;
     PORTB := PORTB m |}.

Definition with_pos (x : Z) (m : Machine) : Machine :=
  let s := screen m in
  {| screen := {| error_ := error_ s;
                  motor_dir_ := motor_dir_ s;
                  pos_ := x;
                  last_update_time_ := last_update_time_ s |};
     PORTA := PORTA m;
     PORTB := PORTB m |}.

(** [go_home] reads the endswitch itself ([p1]) and once more inside
    [set_dir] ([p2]). *)
Definition go_home (p1 p2 : Pins) (m : Machine) : Machine :=
  if ErrorType_eqb (error_ (screen m)) ERR_SWITCH then m
  else
    let m1 := with_error ERR_NONE m in
    if endswitch_in p1 then m1
    else set_dir DIR_UP p2 (with_pos SCREEN_DN_STOP_THRESHOLD m1).

Definition event_rotation_tick (p : Pins) (m : Machine) : Machine :=
  let s := screen m in
  {| screen := {| error_ := error_ s;
                  motor_dir_ := motor_dir_ s;
                  pos_ := match motor_dir_ s with
                          | DIR_UP => swrap16 (pos_ s - 1)
                          | DIR_DOWN => swrap16 (pos_ s + 1)
                          | DIR_NEUTRAL => pos_ s
                          end;
                  last_update_time_ := Clock.now p |};
     PORTA := PORTA m;
     PORTB := PORTB m |}.

Definition event_endswitch_triggered (m : Machine) : Machine :=
  if negb (Direction_eqb (motor_dir_ (screen m)) DIR_DOWN)
  then with_pos 0 m
  else m.

(** [set_dir(DIR_NEUTRAL)] reads no input register; [p] is only handed
    through. *)
Definition enter_error_state (type : ErrorType) (p : Pins) (m : Machine)
  : Machine :=
  with_error type (set_dir DIR_NEUTRAL p m).

Definition check_stop_conditions (p : Pins) (m : Machine) : Machine :=
  let m1 :=
    if negb (Direction_eqb (motor_dir_ (screen m)) DIR_NEUTRAL)
       && (Clock.ms_to_cycles 1000
           <? Clock.since p (last_update_time_ (screen m)))
    then enter_error_state ERR_ROTATION p m
    else m in
  let m2 :=
    if Direction_eqb (motor_dir_ (screen m1)) DIR_UP
       && (pos_ (screen m1) <=? SCREEN_UP_STOP_THRESHOLD)
    then enter_error_state ERR_SWITCH p m1
    else m1 in
  if (Direction_eqb (motor_dir_ (screen m2)) DIR_UP
      && up_stop_condition p (screen m2))
     || (Direction_eqb (motor_dir_ (screen m2)) DIR_DOWN
         && down_stop_condition (screen m2))
  then set_dir DIR_NEUTRAL p m2
  else m2.

(** ** Runs of the controller *)

(** The public operations, each with the register samples it reads. *)
Inductive Op : Type :=
  | OpSetDir (d : Direction) (p : Pins)
  | OpGoHome (p1 p2 : Pins)
  | OpRotationTick (p : Pins)
  | OpEndswitchTriggered
  | OpCheckStopConditions (p : Pins).

Definition step (o : Op) (m : Machine) : Machine :=
  match o with
  | OpSetDir d p => set_dir d p m
  | OpGoHome p1 p2 => go_home p1 p2 m
  | OpRotationTick p => event_rotation_tick p m
  | OpEndswitchTriggered => event_endswitch_triggered m
  | OpCheckStopConditions p => check_stop_conditions p m
  end.

Definition run (ops : list Op) (m : Machine) : Machine :=
  fold_left (fun acc o => step o acc) ops m.

(** States the firmware can be in: some run from the state [main] sets
    up. *)
Definition reachable (m : Machine) : Prop :=
  exists porta lut ops, m = run ops (main_init porta lut).

(** An error implies a stopped motor. *)
Definition error_implies_neutral (m : Machine) : Prop :=
  error_ (screen m) <> ERR_NONE -> motor_dir_ (screen m) = DIR_NEUTRAL.

(** Input samples used in the examples: endswitch released (PINB bit 1
    high), infrared line idle, timer at [tick]. *)
Definition at_tick (tick : Z) : Pins :=
  {| PINA := IN_IR_A; PINB := Z.lor IN_RESET_B IN_ENDSWITCH_B; TCNT1 := tick |}.

(** The same with the endswitch pressed (bit 1 low). *)
Definition at_tick_home (tick : Z) : Pins :=
  {| PINA := IN_IR_A; PINB := IN_RESET_B; TCNT1 := tick |}.

(** ** Status LED *)

Definition status_led (b : bool) (m : Machine) : Machine :=
  {| screen := screen m;
     PORTA := if b then port_set (PORTA m) OUT_STATUSLED_A
              else port_clear (PORTA m) OUT_STATUSLED_A;
     PORTB := PORTB m |}.

(** ** Motor outputs *)

(** The two H-bridge lines: bit [OUT_MOT_DN_A] of PORTA and bit
    [OUT_MOT_UP_B] of PORTB. *)
Definition motor_dn_output (m : Machine) : bool :=
  Z.testbit (PORTA m) (Z.log2 OUT_MOT_DN_A).

Definition motor_up_output (m : Machine) : bool :=
  Z.testbit (PORTB m) (Z.log2 OUT_MOT_UP_B).

(** Each line is driven exactly while the motor runs in its direction. *)
Definition outputs_match_dir (m : Machine) : Prop :=
  motor_up_output m = Direction_eqb (motor_dir_ (screen m)) DIR_UP
  /\ motor_dn_output m = Direction_eqb (motor_dir_ (screen m)) DIR_DOWN.

(** A burst of encoder ticks, one timer sample per tick. *)
Definition rotation_ticks (ps : list Pins) (m : Machine) : Machine :=
  fold_left (fun acc p => event_rotation_tick p acc) ps m.

(** ** Comparator interrupt *)

(** [(ACSR & (1<<ACO)) == 0].  [ACO] is the bit number avr/io.h gives the
    comparator output in [ACSR], and [acsr] the value read from that
    register. *)
Definition got_falling_edge (ACO acsr : Z) : bool :=
  Z.land acsr (Z.shiftl 1 ACO) =? 0.

(** [ISR(ANA_COMP_vect)].  [last] is the handler's static variable. *)
Definition ISR_ANA_COMP (ACO acsr : Z) (p : Pins) (st : bool * Machine)
  : bool * Machine :=
  let last := fst st in
  let m := snd st in
  let st1 :=
    if negb (Bool.eqb (got_falling_edge ACO acsr) last)
    then (got_falling_edge ACO acsr, event_rotation_tick p m)
    else (last, m) in
  (fst st1,
   {| screen := screen (snd st1);
      PORTA := if got_falling_edge ACO acsr
               then port_set (PORTA (snd st1)) OUT_STBIAS_A
               else port_clear (PORTA (snd st1)) OUT_STBIAS_A;
      PORTB := PORTB (snd st1) |}).

(** A series of interrupts, each with the comparator register and the
    timer it sees. *)
Definition interrupts (ACO : Z) (evs : list (Z * Pins)) (st : bool * Machine)
  : bool * Machine :=
  fold_left (fun acc ev => ISR_ANA_COMP ACO (fst ev) (snd ev) acc) evs st.

(** ** Infrared receiver *)

(** The receiver polls the infrared line in busy loops.  The line is given
    as the list of values the successive calls of [infrared_in()] return.
    [Starved]: the list ended while a loop was still polling, so the call
    has not returned.  [Unfinished]: the rounds granted to the outer loop
    were used up, which the 32 rounds [read_infrared] is given never are
    (see [read_infrared_bounded]). *)
Inductive Poll (A : Type) : Type :=
  | Returned (a : A)
  | Starved
  | Unfinished.

Arguments Returned {A} a.
Arguments Starved {A}.
Arguments Unfinished {A}.

Definition lo_hi_bit_threshold : Z := wrap16 (127 * AVR_MHZ).
Definition end_of_signal : Z := wrap16 (1500 * AVR_MHZ).

(** [while (!infrared_in()) {}]: polls up to and including the first high
    sample. *)
Fixpoint skip_low (ir : list bool) : option (list bool) :=
  match ir with
  | [] => None
  | s :: rest => if negb s then skip_low rest else Some rest
  end.

(** [for (count = 0; infrared_in() && count < end_of_signal; ++count);]
    entered with [count]: the line is polled before the bound is tested. *)
Fixpoint count_high (ir : list bool) (count : Z) : option (Z * list bool) :=
  match ir with
  | [] => None
  | s :: rest =>
      if s && (count <? end_of_signal)
      then count_high rest (wrap16 (count + 1))
      else Some (count, rest)
  end.

(** [buffer[i] = v] on the caller's array. *)
Fixpoint store (i : nat) (v : Z) (bytes : list Z) : list Z :=
  match bytes, i with
  | [], _ => []
  | _ :: tl, O => v :: tl
  | hd :: tl, S i' => hd :: store i' v tl
  end.

(** The locals of [read_infrared]: the pointer [buffer] is the caller's
    array [bytes] together with the offset [buffer_pos] into it. *)
Record Reader : Type := mkReader {
  read : Z;
  current_bit : Z;
  buffer_pos : nat;
  bytes : list Z
}.

Inductive Next : Type :=
  | Continue (r : Reader)
  | Break (r : Reader).

(** The rest of the loop body once the high phase has been measured. *)
Definition bit_step (count : Z) (r : Reader) : Next :=
  if end_of_signal <=? count then Break r
  else
    let bytes1 :=
      if lo_hi_bit_threshold <? count
      then store (buffer_pos r)
             (wrap8 (Z.lor (byte_at (bytes r) (buffer_pos r)) (current_bit r)))
             (bytes r)
      else bytes r in
    let current_bit1 := wrap8 (Z.shiftr (current_bit r) 1) in
    if current_bit1 =? 0 then
      let read1 := wrap8 (read r + 1) in
      if read1 =? 4
      then Break {| read := read1;
                    current_bit := 0x80;
                    buffer_pos := buffer_pos r;
                    bytes := bytes1 |}
      else Continue {| read := read1;
                       current_bit := 0x80;
                       buffer_pos := S (buffer_pos r);
                       bytes := store (S (buffer_pos r)) 0 bytes1 |}
    else Continue {| read := read r;
                     current_bit := current_bit1;
                     buffer_pos := buffer_pos r;
                     bytes := bytes1 |}.

(** [while (read < 4) { ... }], at most [fuel] rounds. *)
Fixpoint read_loop (fuel : nat) (ir : list bool) (r : Reader)
  : Poll (Reader * list bool) :=
  if read r <? 4 then
    match fuel with
    | O => Unfinished
    | S fuel' =>
        match skip_low ir with
        | None => Starved
        | Some ir1 =>
            match count_high ir1 0 with
            | None => Starved
            | Some (count, ir2) =>
                match bit_step count r with
                | Break r' => Returned (r', ir2)
                | Continue r' => read_loop fuel' ir2 r'
                end
            end
        end
    end
  else Returned (r, ir).

(** Four bytes of eight bits: 32 rounds are all the loop can make. *)
Definition read_infrared (ir : list bool) (buffer : list Z)
  : Poll (Z * list Z * list bool) :=
  match read_loop 32 ir {| read := 0;
                           current_bit := 0x80;
                           buffer_pos := 0;
                           bytes := store 0 0 buffer |} with
  | Returned (r, rest) => Returned (read r, bytes r, rest)
  | Starved => Starved
  | Unfinished => Unfinished
  end.

(** The [switch] of [handle_infrared].  [p1] is the register sample the
    first call made in a branch sees, [p2] the one the second call sees. *)
Definition dispatch (b : Button) (p1 p2 : Pins) (st : Monoflop.t * Machine)
  : Monoflop.t * Machine :=
  let extra_buttons_active := fst st in
  let m := snd st in
  match b with
  | BUTTON_ON =>
      if ErrorType_eqb (error m) ERR_ROTATION
      then (extra_buttons_active, go_home p1 p2 m)
      else (Monoflop.trigger p2 extra_buttons_active, set_dir DIR_DOWN p1 m)
  | BUTTON_OFF =>
      (Monoflop.trigger p2 extra_buttons_active, set_dir DIR_UP p1 m)
  | BUTTON_UP =>
      (extra_buttons_active,
       set_dir (if Monoflop.is_active extra_buttons_active
                then DIR_UP else DIR_NEUTRAL) p1 m)
  | BUTTON_DOWN =>
      (extra_buttons_active,
       set_dir (if Monoflop.is_active extra_buttons_active
                then DIR_DOWN else DIR_NEUTRAL) p1 m)
  | BUTTON_UNKNOWN => (extra_buttons_active, set_dir DIR_NEUTRAL p1 m)
  | BUTTON_SET => st
  end.

Definition handle_infrared (ir : list bool) (p1 p2 : Pins)
    (st : Monoflop.t * Machine) : Poll (Monoflop.t * Machine * list bool) :=
  match read_infrared ir [0; 0; 0; 0] with
  | Starved => Starved
  | Unfinished => Unfinished
  | Returned (n, infrared_bytes, rest) =>
      if negb (n =? 4) then Returned (st, rest)
      else Returned (dispatch (DecodeInfrared infrared_bytes) p1 p2 st, rest)
  end.

(** The signal the comment at each [Button] gives: the two bytes after
    the preamble. *)
Definition button_code (b : Button) : option (Z * Z) :=
  match b with
  | BUTTON_ON => Some (0x04, 0xFB)
  | BUTTON_OFF => Some (0x44, 0xBB)
  | BUTTON_UP => Some (0x06, 0xF9)
  | BUTTON_DOWN => Some (0x26, 0xD9)
  | BUTTON_SET => Some (0x50, 0xAF)
  | BUTTON_UNKNOWN => None
  end.

(** Frames the preamble test of [DecodeInfrared] lets through. *)
Definition preamble_passes (buffer : list Z) : Prop :=
  byte_at buffer 0 = 0xE0 \/ byte_at buffer 1 = 0xD5.

(** ** Pulse trains *)

(** One bit on the line: [lo] low samples, a high phase of which the
    receiver counts [hi] samples, and the low sample that ends it. *)
Definition pulse (lo hi : nat) : list bool :=
  repeat false lo ++ repeat true (S hi) ++ [false].

Definition pulses (ps : list (nat * nat)) : list bool :=
  concat (map (fun lh => pulse (fst lh) (snd lh)) ps).

(** A counted high phase longer than the threshold is a one. *)
Definition is_long (hi : nat) : bool := lo_hi_bit_threshold <? Z.of_nat hi.

(** The value of a bit string, most significant bit first. *)
Definition byte_of_bits (bits : list bool) : Z :=
  fold_left (fun v b => 2 * v + Z.b2z b) bits 0.

Definition bits_of_byte (b : Z) : list bool :=
  map (Z.testbit b) [7; 6; 5; 4; 3; 2; 1; 0].

(** A sender with fixed timings: [short] counted samples for a zero,
    [long] for a one, [gap] low samples in front of every bit. *)
Definition send_byte (gap short long : nat) (b : Z) : list bool :=
  pulses (map (fun bit : bool => (gap, if bit then long else short))
              (bits_of_byte b)).

Definition send_frame (gap short long : nat) (frame : list Z) : list bool :=
  concat (map (send_byte gap short long) frame).

(** The byte a group of eight pulses carries. *)
Definition byte_of_group (group : list (nat * nat)) : Z :=
  byte_of_bits (map (fun lh => is_long (snd lh)) group).

(** Eight pulses, each high phase shorter than the end-of-signal bound. *)
Definition byte_group (group : list (nat * nat)) : Prop :=
  length group = 8%nat
  /\ Forall (fun lh => Z.of_nat (snd lh) < end_of_signal) group.

(** The line after the last bit: [lo] low samples, then high for as long
    as the receiver counts; [s] is the sample polled when the count has
    reached [end_of_signal]. *)
Definition end_pulse (lo : nat) (s : bool) : list bool :=
  repeat false lo ++ repeat true (S (Z.to_nat end_of_signal)) ++ [s].

(** Rounds the receiving loop can still make. *)
Definition rounds_left (r : Reader) : Z :=
  8 * (3 - read r) + Z.log2 (current_bit r) + 1.

(** The reader between two rounds: fewer than four bytes read, and
    [current_bit] a single bit of a byte. *)
Definition reading (r : Reader) : Prop :=
  In (read r) [0; 1; 2; 3]
  /\ In (current_bit r) [1; 2; 4; 8; 16; 32; 64; 128].

(** Level changes in a series of comparator readings, [last] being the
    level before the first of them. *)
Fixpoint level_changes (last : bool) (levels : list bool) : nat :=
  match levels with
  | [] => 0
  | l :: rest =>
      (if Bool.eqb l last then 0 else 1) + level_changes l rest
  end.

(** Example timings: two low samples in front of every bit, 500 counted
    samples for a zero and 1500 for a one. *)
Definition example_group (b : Z) : list (nat * nat) :=
  map (fun bit : bool => (2%nat, if bit then 1500%nat else 500%nat))
      (bits_of_byte b).

(** ** Main loop *)

(** The variables [main] and the interrupt handler share: the handler's
    static [last], the gate [extra_buttons_active] and the screen with its
    ports. *)
Record Firmware : Type := mkFirmware {
  isr_last : bool;
  gate : Monoflop.t;
  machine : Machine
}.

(** What one round of the main loop meets: the register samples its
    statements read, the values [infrared_in()] returns (the loop's own
    poll first, then those polled by [read_infrared]), and the interrupts
    taken in front of each statement.  Interrupts taken while
    [handle_infrared] polls the line count as taken in front of it:
    [read_infrared] uses neither the screen nor the ports. *)
Record Round : Type := mkRound {
  irq_check : list (Z * Pins);
  pins_check : Pins;
  irq_gate : list (Z * Pins);
  pins_gate : Pins;
  irq_infrared : list (Z * Pins);
  ir_samples : list bool;
  pins_command1 : Pins;
  pins_command2 : Pins;
  irq_endswitch : list (Z * Pins);
  pins_endswitch : Pins;
  irq_led : list (Z * Pins);
  pins_led : Pins
}.

Definition take_interrupts (ACO : Z) (evs : list (Z * Pins)) (s : Firmware)
  : Firmware :=
  let st := interrupts ACO evs (isr_last s, machine s) in
  {| isr_last := fst st; gate := gate s; machine := snd st |}.

(** The condition handed to [status_led]: an integer is true when it is
    not zero. *)
Definition led_condition (p : Pins) (s : Firmware) : bool :=
  match error (machine s) with
  | ERR_NONE => Monoflop.is_active (gate s)
  | ERR_SWITCH => negb (Z.land (Clock.now p) 4096 =? 0)
  | ERR_ROTATION => negb (Z.land (Clock.now p) 1024 =? 0)
  end.

(** The first two statements of the loop body: the stop-condition check
    and the expiry check of the gate. *)
Definition before_infrared (ACO : Z) (i : Round) (s : Firmware) : Firmware :=
  let s1 := take_interrupts ACO (irq_check i) s in
  let s2 := {| isr_last := isr_last s1;
               gate := gate s1;
               machine := check_stop_conditions (pins_check i)
                            (machine s1) |} in
  let s3 := take_interrupts ACO (irq_gate i) s2 in
  let s4 := {| isr_last := isr_last s3;
               gate := Monoflop.regular_check (pins_gate i) (gate s3);
               machine := machine s3 |} in
  take_interrupts ACO (irq_infrared i) s4.

(** The last two: the endswitch poll and the status LED. *)
Definition after_infrared (ACO : Z) (i : Round) (s : Firmware) : Firmware :=
  let s7 := take_interrupts ACO (irq_endswitch i) s in
  let s8 :=
    if endswitch_in (pins_endswitch i)
    then {| isr_last := isr_last s7;
            gate := gate s7;
            machine := event_endswitch_triggered (machine s7) |}
    else s7 in
  let s9 := take_interrupts ACO (irq_led i) s8 in
  {| isr_last := isr_last s9;
     gate := gate s9;
     machine := status_led (led_condition (pins_led i) s9) (machine s9) |}.

(** The body of [for (;;)]. *)
Definition loop_round (ACO : Z) (i : Round) (s : Firmware) : Poll Firmware :=
  let s5 := before_infrared ACO i s in
  match ir_samples i with
  | [] => Starved
  | poll :: ir =>
      if negb poll then
        match handle_infrared ir (pins_command1 i) (pins_command2 i)
                (gate s5, machine s5) with
        | Returned (st, _) =>
            Returned (after_infrared ACO i
                        {| isr_last := isr_last s5;
                           gate := fst st;
                           machine := snd st |})
        | Starved => Starved
        | Unfinished => Unfinished
        end
      else Returned (after_infrared ACO i s5)
  end.

(** A number of rounds, one after the other. *)
Fixpoint loop_rounds (ACO : Z) (rounds : list Round) (s : Firmware)
  : Poll Firmware :=
  match rounds with
  | [] => Returned s
  | i :: rest =>
      match loop_round ACO i s with
      | Returned s' => loop_rounds ACO rest s'
      | Starved => Starved
      | Unfinished => Unfinished
      end
  end.

(** [main] up to the loop: the screen and the gate are set up, interrupts
    are enabled and [go_home] is called. *)
Definition main_start (ACO porta lut : Z) (irq : list (Z * Pins))
    (p1 p2 : Pins) : Firmware :=
  let s0 := {| isr_last := false;
               gate := Monoflop.Monoflop (Clock.ms_to_cycles 4000);
               machine := main_init porta lut |} in
  let s1 := take_interrupts ACO irq s0 in
  {| isr_last := isr_last s1;
     gate := gate s1;
     machine := go_home p1 p2 (machine s1) |}.

(** The status LED line. *)
Definition status_led_output (m : Machine) : bool :=
  Z.testbit (PORTA m) (Z.log2 OUT_STATUSLED_A).

(** The two properties that keep the motor safe. *)
Definition safe (m : Machine) : Prop :=
  error_implies_neutral m /\ outputs_match_dir m.

(** The switch fault with everything off. *)
Definition locked_out (m : Machine) : Prop :=
  error_ (screen m) = ERR_SWITCH
  /\ motor_dir_ (screen m) = DIR_NEUTRAL
  /\ motor_up_output m = false
  /\ motor_dn_output m = false.

(** A quiet round: no interrupts, the infrared line idle, the endswitch
    released, every register read at timer value [tick]. *)
Definition quiet_round (tick : Z) : Round :=
  {| irq_check := []; pins_check := at_tick tick;
     irq_gate := []; pins_gate := at_tick tick;
     irq_infrared := []; ir_samples := [true];
     pins_command1 := at_tick tick; pins_command2 := at_tick tick;
     irq_endswitch := []; pins_endswitch := at_tick tick;
     irq_led := []; pins_led := at_tick tick |}.

(** A round in which the OFF button is received while the encoder sends
    two ticks. *)
Definition command_round (tick : Z) : Round :=
  {| irq_check := [(0, at_tick tick)]; pins_check := at_tick tick;
     irq_gate := []; pins_gate := at_tick tick;
     irq_infrared := [(32, at_tick tick)];
     ir_samples := false :: send_frame 2 500 1500 [0xE0; 0xD5; 0x44; 0xBB];
     pins_command1 := at_tick tick; pins_command2 := at_tick tick;
     irq_endswitch := []; pins_endswitch := at_tick tick;
     irq_led := []; pins_led := at_tick tick |}.

(** ** Example states *)

(** Lowering the screen: 100 ticks below home, last tick at time 0. *)
Definition lowering_example : Machine :=
  {| screen := {| error_ := ERR_NONE;
                  motor_dir_ := DIR_DOWN;
                  pos_ := 100;
                  last_update_time_ := 0 |};
     PORTA := OUT_MOT_DN_A;
     PORTB := Z.lor IN_RESET_B IN_ENDSWITCH_B |}.

Definition lowering_ops : list Op :=
  OpSetDir DIR_DOWN (at_tick 0) :: repeat (OpRotationTick (at_tick 0)) 100.

(** Homing past the endswitch: the motor runs up and the position has
    reached the upper threshold, last tick at time 0. *)
Definition overrun_example : Machine :=
  {| screen := {| error_ := ERR_NONE;
                  motor_dir_ := DIR_UP;
                  pos_ := SCREEN_UP_STOP_THRESHOLD;
                  last_update_time_ := 0 |};
     PORTA := 0;
     PORTB := Z.lor (Z.lor IN_RESET_B IN_ENDSWITCH_B) OUT_MOT_UP_B |}.

Definition overrun_ops : list Op :=
  OpGoHome (at_tick 0) (at_tick 0) :: repeat (OpRotationTick (at_tick 0)) 262.

(** The switch fault the main loop raises from [overrun_example]. *)
Definition switch_fault_example : Machine :=
  {| screen := {| error_ := ERR_SWITCH;
                  motor_dir_ := DIR_NEUTRAL;
                  pos_ := SCREEN_UP_STOP_THRESHOLD;
                  last_update_time_ := 0 |};
     PORTA := 0;
     PORTB := Z.lor IN_RESET_B IN_ENDSWITCH_B |}.

(** The rotation fault raised from [lowering_example] after a stall. *)
Definition rotation_fault_example : Machine :=
  {| screen := {| error_ := ERR_ROTATION;
                  motor_dir_ := DIR_NEUTRAL;
                  pos_ := 100;
                  last_update_time_ := 0 |};
     PORTA := 0;
     PORTB := Z.lor IN_RESET_B IN_ENDSWITCH_B |}.

(** A gate of ten ticks, triggered at time 0. *)
Definition gate_example : Monoflop.t :=
  Monoflop.trigger (at_tick 0) (Monoflop.Monoflop 10).

(** * Properties *)

(** ** Clock *)

Lemma ms_to_cycles_1000 : Clock.ms_to_cycles 1000 = 7812.
Proof. reflexivity. Qed.

Lemma ms_to_cycles_4000 : Clock.ms_to_cycles 4000 = 31248.
Proof. reflexivity. Qed.

(** ** Infrared decoder *)

(** C9: the five command frames decode to ON, OFF, UP, DOWN and SET, and
    the all-zero frame decodes to UNKNOWN. *)
Theorem DecodeInfrared_table :
  DecodeInfrared [0xE0; 0xD5; 0x04; 0xFB] = BUTTON_ON /\
  DecodeInfrared [0xE0; 0xD5; 0x44; 0xBB] = BUTTON_OFF /\
  DecodeInfrared [0xE0; 0xD5; 0x06; 0xF9] = BUTTON_UP /\
  DecodeInfrared [0xE0; 0xD5; 0x26; 0xD9] = BUTTON_DOWN /\
  DecodeInfrared [0xE0; 0xD5; 0x50; 0xAF] = BUTTON_SET /\
  DecodeInfrared [0x00; 0x00; 0x00; 0x00] = BUTTON_UNKNOWN.
Proof. repeat split; reflexivity. Qed.

(** The preamble test rejects a frame when both leading bytes are wrong. *)
Lemma DecodeInfrared_both_wrong (b0 b1 u l : Z) :
  b0 <> 0xE0 -> b1 <> 0xD5 ->
  DecodeInfrared [b0; b1; u; l] = BUTTON_UNKNOWN.
Proof.
  intros H0 H1. unfold DecodeInfrared, byte_at. cbn [nth].
  apply Z.eqb_neq in H0. apply Z.eqb_neq in H1.
  rewrite H0, H1. reflexivity.
Qed.

(** C1: a frame whose first byte is not 0xE0 but whose second byte is 0xD5
    is a well-formed frame with a wrong preamble, and it still decodes to
    ON: the test [buffer[0] != 0xE0 && buffer[1] != 0xD5] lets it pass. *)
Theorem DecodeInfrared_one_wrong_preamble_byte_accepted :
  is_frame [0x00; 0xD5; 0x04; 0xFB] /\
  byte_at [0x00; 0xD5; 0x04; 0xFB] 0 <> 0xE0 /\
  DecodeInfrared [0x00; 0xD5; 0x04; 0xFB] = BUTTON_ON /\
  DecodeInfrared [0x00; 0xD5; 0x04; 0xFB] <> BUTTON_UNKNOWN.
Proof.
  split; [| split; [| split]].
  - split; [reflexivity |]. repeat constructor; lia.
  - cbn. lia.
  - reflexivity.
  - cbn. discriminate.
Qed.

(** ** Monoflop *)

Section MonoflopFacts.
Import Monoflop.

Lemma regular_check_duration (p : Pins) (m : t) :
  duration_ (regular_check p m) = duration_ m.
Proof. unfold regular_check. now destruct (_ && _). Qed.

Lemma regular_check_trigger_time (p : Pins) (m : t) :
  trigger_time_ (regular_check p m) = trigger_time_ m.
Proof. unfold regular_check. now destruct (_ && _). Qed.

(** Nothing but [trigger] switches the gate on. *)
Lemma regular_checks_inactive (checks : list Pins) (m : t) :
  active_ m = false -> active_ (regular_checks checks m) = false.
Proof.
  revert m. induction checks as [| c cs IH]; intros m Hm; [exact Hm |].
  cbn. apply IH. unfold regular_check. rewrite Hm. exact Hm.
Qed.

(** The flag after a series of checks: still set exactly when none of
    the checks saw the window expired. *)
Lemma regular_checks_active (checks : list Pins) (m : t) :
  active_ m = true ->
  is_active (regular_checks checks m)
  = forallb (fun c => Clock.since c (trigger_time_ m) <? duration_ m) checks.
Proof.
  revert m. induction checks as [| c cs IH]; intros m Hm; [exact Hm |].
  cbn [regular_checks fold_left forallb].
  fold (regular_checks cs (regular_check c m)).
  unfold regular_check at 1. rewrite Hm. cbn [andb].
  destruct (duration_ m <=? Clock.since c (trigger_time_ m)) eqn:E.
  - apply Z.leb_le in E.
    replace (Clock.since c (trigger_time_ m) <? duration_ m) with false
      by (symmetry; apply Z.ltb_ge; exact E).
    cbn [andb]. unfold is_active. now apply regular_checks_inactive.
  - apply Z.leb_gt in E.
    replace (Clock.since c (trigger_time_ m) <? duration_ m) with true
      by (symmetry; apply Z.ltb_lt; exact E).
    cbn [andb]. now apply IH.
Qed.

End MonoflopFacts.

(** C3, as stated, fails: [gate_example] has ten ticks of duration and
    was triggered at tick 0; never checked, it is asked at tick 20.  The
    window has expired, yet [is_active] still answers true. *)
Lemma Monoflop_unchecked_stays_active :
  ~ (Monoflop.duration_ gate_example
       <= Clock.since (at_tick 20) (Monoflop.trigger_time_ gate_example) ->
     Monoflop.is_active (Monoflop.regular_checks [] gate_example) = false).
Proof.
  intros H.
  assert (Hexp : Monoflop.duration_ gate_example
                 <= Clock.since (at_tick 20)
                      (Monoflop.trigger_time_ gate_example))
    by (vm_compute; discriminate).
  specialize (H Hexp). vm_compute in H. discriminate.
Qed.

(** C3, amended: [is_active] reports a flag that only [regular_check]
    clears.  After [trigger] at time [t0] it is true at once; it is still
    true after any series of [regular_check] calls that all came less than
    [duration_] ticks (16-bit wrapping difference) after [t0]; and it is
    false after any series of calls one of which came [duration_] ticks or
    more after [t0]. *)
Theorem Monoflop_active_until_checked_expired
    (m : Monoflop.t) (t0 : Pins) (checks : list Pins) :
  Monoflop.is_active (Monoflop.trigger t0 m) = true /\
  (Forall (fun c => Clock.since c (Clock.now t0) < Monoflop.duration_ m)
          checks ->
   Monoflop.is_active
     (Monoflop.regular_checks checks (Monoflop.trigger t0 m)) = true) /\
  (Exists (fun c => Monoflop.duration_ m <= Clock.since c (Clock.now t0))
          checks ->
   Monoflop.is_active
     (Monoflop.regular_checks checks (Monoflop.trigger t0 m)) = false).
Proof.
  split; [reflexivity |].
  pose proof (regular_checks_active checks (Monoflop.trigger t0 m) eq_refl)
    as Heq.
  cbn [Monoflop.trigger Monoflop.trigger_time_ Monoflop.duration_] in Heq.
  split; intros H; rewrite Heq.
  - apply forallb_forall. intros c Hc.
    rewrite Forall_forall in H. apply Z.ltb_lt. now apply H.
  - apply Exists_exists in H. destruct H as [c [Hc Hle]].
    destruct (forallb _ checks) eqn:E; [| reflexivity].
    rewrite forallb_forall in E. specialize (E c Hc).
    apply Z.ltb_lt in E. lia.
Qed.

Lemma Monoflop_active_until_checked_expired_witness :
  Monoflop.is_active
    (Monoflop.regular_checks [at_tick 3; at_tick 9]
       (Monoflop.trigger (at_tick 0) (Monoflop.Monoflop 10))) = true /\
  Monoflop.is_active
    (Monoflop.regular_checks [at_tick 3; at_tick 10; at_tick 65539]
       (Monoflop.trigger (at_tick 0) (Monoflop.Monoflop 10))) = false.
Proof.
  split.
  - apply (proj1 (proj2 (Monoflop_active_until_checked_expired
                           (Monoflop.Monoflop 10) (at_tick 0)
                           [at_tick 3; at_tick 9]))).
    repeat constructor.
  - apply (proj2 (proj2 (Monoflop_active_until_checked_expired
                           (Monoflop.Monoflop 10) (at_tick 0)
                           [at_tick 3; at_tick 10; at_tick 65539]))).
    apply Exists_cons_tl. apply Exists_cons_hd. vm_compute. discriminate.
Defined.

(** ** Screen: basic facts *)

Lemma Direction_eqb_eq (a b : Direction) : Direction_eqb a b = true <-> a = b.
Proof. destruct a, b; cbn; split; congruence. Qed.

Lemma Direction_eqb_neq (a b : Direction) :
  Direction_eqb a b = false <-> a <> b.
Proof. destruct a, b; cbn; split; congruence. Qed.

Lemma ErrorType_true_iff (e : ErrorType) :
  ErrorType_true e = true <-> e <> ERR_NONE.
Proof. destruct e; cbn; split; congruence. Qed.

Lemma up_stop_condition_iff (p : Pins) (s : Screen) :
  up_stop_condition p s = true <->
  error_ s <> ERR_NONE \/ pos_ s <= SCREEN_UP_STOP_THRESHOLD
  \/ endswitch_in p = true.
Proof.
  unfold up_stop_condition.
  rewrite !orb_true_iff, ErrorType_true_iff, Z.leb_le. tauto.
Qed.

Lemma down_stop_condition_iff (s : Screen) :
  down_stop_condition s = true <->
  error_ s <> ERR_NONE \/ SCREEN_DN_STOP_THRESHOLD <= pos_ s.
Proof.
  unfold down_stop_condition.
  rewrite orb_true_iff, ErrorType_true_iff, Z.leb_le. tauto.
Qed.

(** [set_dir] never touches [error_]. *)
Lemma set_dir_error (d : Direction) (p : Pins) (m : Machine) :
  error_ (screen (set_dir d p m)) = error_ (screen m).
Proof.
  unfold set_dir. destruct (Direction_eqb d _); [reflexivity |].
  destruct d; [reflexivity | |];
    match goal with |- context [negb ?c] => destruct c end; reflexivity.
Qed.

Lemma set_dir_neutral_motor_dir (p : Pins) (m : Machine) :
  motor_dir_ (screen (set_dir DIR_NEUTRAL p m)) = DIR_NEUTRAL.
Proof.
  unfold set_dir. destruct (Direction_eqb _ _) eqn:E; [| reflexivity].
  apply Direction_eqb_eq in E. now symmetry.
Qed.

(** A refused or repeated command changes nothing; an accepted UP or DOWN
    needs [error_] to be clear. *)
Lemma set_dir_motor_dir (d : Direction) (p : Pins) (m : Machine) :
  set_dir d p m = m
  \/ motor_dir_ (screen (set_dir d p m)) = DIR_NEUTRAL
  \/ error_ (screen m) = ERR_NONE.
Proof.
  unfold set_dir. destruct (Direction_eqb d _); [now left |].
  destruct d.
  - right; left; reflexivity.
  - destruct (up_stop_condition p (screen m)) eqn:E; [now left |].
    right; right. destruct (error_ (screen m)) eqn:Ee; [reflexivity | |];
      unfold up_stop_condition in E; rewrite Ee in E; discriminate.
  - destruct (down_stop_condition (screen m)) eqn:E; [now left |].
    right; right. destruct (error_ (screen m)) eqn:Ee; [reflexivity | |];
      unfold down_stop_condition in E; rewrite Ee in E; discriminate.
Qed.

Lemma enter_error_state_fields (type : ErrorType) (p : Pins) (m : Machine) :
  error_ (screen (enter_error_state type p m)) = type /\
  motor_dir_ (screen (enter_error_state type p m)) = DIR_NEUTRAL.
Proof.
  unfold enter_error_state, with_error.
  cbn [screen error_ motor_dir_].
  split; [reflexivity | apply set_dir_neutral_motor_dir].
Qed.

(** With the motor stopped, [check_stop_conditions] has nothing to do. *)
Lemma check_stop_conditions_neutral (p : Pins) (m : Machine) :
  motor_dir_ (screen m) = DIR_NEUTRAL -> check_stop_conditions p m = m.
Proof.
  intros H. unfold check_stop_conditions.
  repeat (rewrite H; cbn [Direction_eqb negb andb orb]).
  reflexivity.
Qed.

(** The rotation-stall branch: a moving motor and more than
    [ms_to_cycles(1000)] ticks since the last update. *)
Lemma check_stop_conditions_stalled (p : Pins) (m : Machine) :
  motor_dir_ (screen m) <> DIR_NEUTRAL ->
  Clock.ms_to_cycles 1000 < Clock.since p (last_update_time_ (screen m)) ->
  check_stop_conditions p m = enter_error_state ERR_ROTATION p m.
Proof.
  intros Hd Ht. unfold check_stop_conditions.
  apply Direction_eqb_neq in Hd. apply Z.ltb_lt in Ht.
  rewrite Hd, Ht. cbn [negb andb].
  destruct (enter_error_state_fields ERR_ROTATION p m) as [_ Hn].
  rewrite Hn. cbn [Direction_eqb andb orb]. rewrite Hn. reflexivity.
Qed.

(** [check_stop_conditions] either changes nothing or stops the motor. *)
Lemma check_stop_conditions_cases (p : Pins) (m : Machine) :
  check_stop_conditions p m = m
  \/ motor_dir_ (screen (check_stop_conditions p m)) = DIR_NEUTRAL.
Proof.
  unfold check_stop_conditions. cbv zeta.
  destruct (negb (Direction_eqb (motor_dir_ (screen m)) DIR_NEUTRAL)
            && (Clock.ms_to_cycles 1000
                <? Clock.since p (last_update_time_ (screen m)))).
  - right.
    destruct (enter_error_state_fields ERR_ROTATION p m) as [_ Hn].
    repeat (rewrite Hn; cbn [Direction_eqb andb orb]). reflexivity.
  - destruct (Direction_eqb (motor_dir_ (screen m)) DIR_UP
              && (pos_ (screen m) <=? SCREEN_UP_STOP_THRESHOLD)).
    + right.
      destruct (enter_error_state_fields ERR_SWITCH p m) as [_ Hn].
      repeat (rewrite Hn; cbn [Direction_eqb andb orb]). reflexivity.
    + destruct (_ || _); [right | now left].
      apply set_dir_neutral_motor_dir.
Qed.

(** ** Screen: the invariant *)

Lemma main_init_error_implies_neutral (porta lut : Z) :
  error_implies_neutral (main_init porta lut).
Proof. intros _. reflexivity. Qed.

Lemma set_dir_error_implies_neutral (d : Direction) (p : Pins) (m : Machine) :
  error_implies_neutral m -> error_implies_neutral (set_dir d p m).
Proof.
  intros Hinv He.
  destruct (set_dir_motor_dir d p m) as [E | [E | E]].
  - rewrite E in *. now apply Hinv.
  - exact E.
  - rewrite set_dir_error in He. contradiction.
Qed.

Lemma go_home_error_implies_neutral (p1 p2 : Pins) (m : Machine) :
  error_implies_neutral m -> error_implies_neutral (go_home p1 p2 m).
Proof.
  intros Hinv. unfold go_home.
  destruct (ErrorType_eqb _ _); [exact Hinv |].
  intros He. exfalso. apply He.
  destruct (endswitch_in p1); [reflexivity |].
  rewrite set_dir_error. reflexivity.
Qed.

Lemma enter_error_state_error_implies_neutral
    (type : ErrorType) (p : Pins) (m : Machine) :
  error_implies_neutral (enter_error_state type p m).
Proof. intros _. apply enter_error_state_fields. Qed.

Lemma step_error_implies_neutral (o : Op) (m : Machine) :
  error_implies_neutral m -> error_implies_neutral (step o m).
Proof.
  intros Hinv. destruct o as [d p | p1 p2 | p | | p]; cbn [step].
  - now apply set_dir_error_implies_neutral.
  - now apply go_home_error_implies_neutral.
  - exact Hinv.
  - unfold event_endswitch_triggered.
    destruct (negb _); exact Hinv.
  - destruct (check_stop_conditions_cases p m) as [E | E].
    + rewrite E. exact Hinv.
    + intros _. exact E.
Qed.

Lemma run_app (ops1 ops2 : list Op) (m : Machine) :
  run (ops1 ++ ops2) m = run ops2 (run ops1 m).
Proof. apply fold_left_app. Qed.

Lemma run_error_implies_neutral (ops : list Op) (m : Machine) :
  error_implies_neutral m -> error_implies_neutral (run ops m).
Proof.
  revert m. induction ops as [| o ops IH]; intros m Hinv; [exact Hinv |].
  cbn. apply IH. now apply step_error_implies_neutral.
Qed.

Lemma reachable_error_implies_neutral (m : Machine) :
  reachable m -> error_implies_neutral m.
Proof.
  intros [porta [lut [ops ->]]].
  apply run_error_implies_neutral, main_init_error_implies_neutral.
Qed.

(** A switch fault with the motor stopped survives every operation. *)
Lemma step_switch_fault (o : Op) (m : Machine) :
  error_ (screen m) = ERR_SWITCH -> motor_dir_ (screen m) = DIR_NEUTRAL ->
  error_ (screen (step o m)) = ERR_SWITCH
  /\ motor_dir_ (screen (step o m)) = DIR_NEUTRAL.
Proof.
  intros He Hd. destruct o as [d p | p1 p2 | p | | p]; cbn [step].
  - split; [now rewrite set_dir_error |].
    destruct (set_dir_motor_dir d p m) as [E | [E | E]].
    + now rewrite E.
    + exact E.
    + congruence.
  - unfold go_home. rewrite He. cbn. now split.
  - now split.
  - unfold event_endswitch_triggered. destruct (negb _); now split.
  - rewrite (check_stop_conditions_neutral p m Hd). now split.
Qed.

Lemma run_switch_fault (ops : list Op) (m : Machine) :
  error_ (screen m) = ERR_SWITCH -> motor_dir_ (screen m) = DIR_NEUTRAL ->
  error_ (screen (run ops m)) = ERR_SWITCH.
Proof.
  revert m. induction ops as [| o ops IH]; intros m He Hd; [exact He |].
  cbn. destruct (step_switch_fault o m He Hd) as [He' Hd'].
  now apply IH.
Qed.

(** ** Screen: the example states are reachable *)

Lemma lowering_example_run :
  run lowering_ops (main_init 0 0) = lowering_example.
Proof. vm_compute. reflexivity. Qed.

Lemma overrun_example_run :
  run overrun_ops (main_init 0 0) = overrun_example.
Proof. vm_compute. reflexivity. Qed.

Lemma switch_fault_example_run :
  run (overrun_ops ++ [OpCheckStopConditions (at_tick 0)]) (main_init 0 0)
  = switch_fault_example.
Proof. vm_compute. reflexivity. Qed.

Lemma rotation_fault_example_run :
  run (lowering_ops ++ [OpCheckStopConditions (at_tick 7813)]) (main_init 0 0)
  = rotation_fault_example.
Proof. vm_compute. reflexivity. Qed.

Lemma switch_fault_example_reachable : reachable switch_fault_example.
Proof.
  exists 0, 0, (overrun_ops ++ [OpCheckStopConditions (at_tick 0)]).
  symmetry. apply switch_fault_example_run.
Qed.

(** ** Screen: stop conditions and faults *)

(** C2, as stated, fails at the boundary: the motor runs down, the last
    tick was at time 0 and the check comes at tick 7812, which is
    [ms_to_cycles(1000)] exactly.  The comparison in the code is strict,
    so no fault is raised and the motor keeps running. *)
Lemma check_stop_conditions_at_threshold_no_fault :
  ~ (motor_dir_ (screen lowering_example) <> DIR_NEUTRAL ->
     Clock.ms_to_cycles 1000
       <= Clock.since (at_tick 7812)
            (last_update_time_ (screen lowering_example)) ->
     error_ (screen (check_stop_conditions (at_tick 7812) lowering_example))
       = ERR_ROTATION
     /\ motor_dir_
          (screen (check_stop_conditions (at_tick 7812) lowering_example))
        = DIR_NEUTRAL).
Proof.
  intros H.
  assert (H1 : motor_dir_ (screen lowering_example) <> DIR_NEUTRAL)
    by (cbn; discriminate).
  assert (H2 : Clock.ms_to_cycles 1000
               <= Clock.since (at_tick 7812)
                    (last_update_time_ (screen lowering_example)))
    by (vm_compute; discriminate).
  destruct (H H1 H2) as [He _]. vm_compute in He. discriminate.
Qed.

(** C2, amended: with Direction other than NEUTRAL, a call of
    [check_stop_conditions] made strictly more than [ms_to_cycles(1000)]
    ticks (16-bit wrapping difference) after [last_update_time_] leaves
    ErrorState = ROTATION_FAULT and Direction = NEUTRAL. *)
Theorem check_stop_conditions_rotation_fault (p : Pins) (m : Machine) :
  motor_dir_ (screen m) <> DIR_NEUTRAL ->
  Clock.ms_to_cycles 1000 < Clock.since p (last_update_time_ (screen m)) ->
  error_ (screen (check_stop_conditions p m)) = ERR_ROTATION
  /\ motor_dir_ (screen (check_stop_conditions p m)) = DIR_NEUTRAL.
Proof.
  intros Hd Ht. rewrite (check_stop_conditions_stalled p m Hd Ht).
  apply enter_error_state_fields.
Qed.

Lemma check_stop_conditions_rotation_fault_witness :
  error_ (screen (check_stop_conditions (at_tick 7813) lowering_example))
    = ERR_ROTATION
  /\ motor_dir_
       (screen (check_stop_conditions (at_tick 7813) lowering_example))
     = DIR_NEUTRAL.
Proof.
  apply (check_stop_conditions_rotation_fault (at_tick 7813) lowering_example).
  - cbn. discriminate.
  - vm_compute. reflexivity.
Defined.

(** C10, as stated, fails: the motor runs up, the position is at the upper
    threshold and the last tick is 8000 ticks old.  Both fault conditions
    hold, and the error that results is the rotation fault, not the switch
    fault. *)
Lemma check_stop_conditions_both_faults_not_switch :
  ~ (motor_dir_ (screen overrun_example) = DIR_UP ->
     Clock.ms_to_cycles 1000
       < Clock.since (at_tick 8000)
           (last_update_time_ (screen overrun_example)) ->
     pos_ (screen overrun_example) <= SCREEN_UP_STOP_THRESHOLD ->
     error_ (screen (check_stop_conditions (at_tick 8000) overrun_example))
       = ERR_SWITCH).
Proof.
  intros H.
  assert (H2 : Clock.ms_to_cycles 1000
               < Clock.since (at_tick 8000)
                   (last_update_time_ (screen overrun_example)))
    by (vm_compute; reflexivity).
  assert (H3 : pos_ (screen overrun_example) <= SCREEN_UP_STOP_THRESHOLD)
    by (vm_compute; discriminate).
  specialize (H eq_refl H2 H3). vm_compute in H. discriminate.
Qed.

(** C10, amended: when one call of [check_stop_conditions] finds both
    fault conditions (Direction = UP, more than [ms_to_cycles(1000)] ticks
    without a tick, position at or below the upper threshold), the
    resulting ErrorState is ROTATION_FAULT and Direction is NEUTRAL: the
    rotation-stall branch runs first and stops the motor, so the
    switch-overrun test, which asks for Direction = UP, no longer fires. *)
Theorem check_stop_conditions_both_faults_rotation
    (p : Pins) (m : Machine) :
  motor_dir_ (screen m) = DIR_UP ->
  Clock.ms_to_cycles 1000 < Clock.since p (last_update_time_ (screen m)) ->
  pos_ (screen m) <= SCREEN_UP_STOP_THRESHOLD ->
  error_ (screen (check_stop_conditions p m)) = ERR_ROTATION
  /\ motor_dir_ (screen (check_stop_conditions p m)) = DIR_NEUTRAL.
Proof.
  intros Hd Ht _.
  assert (Hn : motor_dir_ (screen m) <> DIR_NEUTRAL) by congruence.
  rewrite (check_stop_conditions_stalled p m Hn Ht).
  apply enter_error_state_fields.
Qed.

Lemma check_stop_conditions_both_faults_rotation_witness :
  error_ (screen (check_stop_conditions (at_tick 8000) overrun_example))
    = ERR_ROTATION
  /\ motor_dir_
       (screen (check_stop_conditions (at_tick 8000) overrun_example))
     = DIR_NEUTRAL.
Proof.
  apply (check_stop_conditions_both_faults_rotation
           (at_tick 8000) overrun_example).
  - reflexivity.
  - vm_compute. reflexivity.
  - vm_compute. discriminate.
Defined.

(** C4: "ErrorState other than NONE implies Direction = NEUTRAL" holds in
    the state [main] starts from, is preserved by [set_dir], [go_home],
    [event_rotation_tick], [event_endswitch_triggered] and
    [check_stop_conditions], and is preserved (indeed established) by
    [enter_error_state]. *)
Theorem error_implies_neutral_invariant :
  (forall porta lut, error_implies_neutral (main_init porta lut)) /\
  (forall d p m,
     error_implies_neutral m -> error_implies_neutral (set_dir d p m)) /\
  (forall p1 p2 m,
     error_implies_neutral m -> error_implies_neutral (go_home p1 p2 m)) /\
  (forall p m,
     error_implies_neutral m ->
     error_implies_neutral (event_rotation_tick p m)) /\
  (forall m,
     error_implies_neutral m ->
     error_implies_neutral (event_endswitch_triggered m)) /\
  (forall p m,
     error_implies_neutral m ->
     error_implies_neutral (check_stop_conditions p m)) /\
  (forall type p m,
     error_implies_neutral m ->
     error_implies_neutral (enter_error_state type p m)).
Proof.
  split; [exact main_init_error_implies_neutral |].
  split; [exact set_dir_error_implies_neutral |].
  split; [exact go_home_error_implies_neutral |].
  split; [exact (fun p => step_error_implies_neutral (OpRotationTick p)) |].
  split; [exact (step_error_implies_neutral OpEndswitchTriggered) |].
  split;
    [exact (fun p => step_error_implies_neutral (OpCheckStopConditions p)) |].
  intros type p m _. apply enter_error_state_error_implies_neutral.
Qed.

Lemma error_implies_neutral_invariant_witness :
  error_implies_neutral
    (go_home (at_tick 0) (at_tick 0) rotation_fault_example)
  /\ error_implies_neutral
       (check_stop_conditions (at_tick 8000) overrun_example).
Proof.
  destruct error_implies_neutral_invariant
    as [_ [_ [Hhome [_ [_ [Hcheck _]]]]]].
  split.
  - apply (Hhome (at_tick 0) (at_tick 0) rotation_fault_example).
    intros _. reflexivity.
  - apply (Hcheck (at_tick 8000) overrun_example).
    intros He. exfalso. apply He. reflexivity.
Defined.

(** Why the next theorem speaks of reachable states: a [Screen] record
    with the switch fault set and the motor still running, which no run
    produces, would have its error overwritten by the stall check. *)
Lemma check_stop_conditions_switch_fault_moving :
  error_
    (screen
       (check_stop_conditions (at_tick 8000)
          (with_error ERR_SWITCH lowering_example)))
  = ERR_ROTATION.
Proof. vm_compute. reflexivity. Qed.

(** C5: once the firmware is in ErrorState = SWITCH_FAULT, every sequence
    of [set_dir], [go_home], [event_rotation_tick],
    [event_endswitch_triggered] and [check_stop_conditions] calls, with
    whatever inputs, ends in ErrorState = SWITCH_FAULT. *)
Theorem switch_fault_is_sticky (m : Machine) (ops : list Op) :
  reachable m ->
  error_ (screen m) = ERR_SWITCH ->
  error_ (screen (run ops m)) = ERR_SWITCH.
Proof.
  intros Hr He. apply run_switch_fault; [exact He |].
  apply (reachable_error_implies_neutral m Hr). congruence.
Qed.

Lemma switch_fault_is_sticky_witness :
  error_
    (screen
       (run [OpGoHome (at_tick 5) (at_tick 5);
             OpSetDir DIR_DOWN (at_tick 6);
             OpRotationTick (at_tick 7);
             OpEndswitchTriggered;
             OpCheckStopConditions (at_tick 9000)]
            switch_fault_example))
  = ERR_SWITCH.
Proof.
  apply (switch_fault_is_sticky switch_fault_example).
  - exists 0, 0, (overrun_ops ++ [OpCheckStopConditions (at_tick 0)]).
    vm_compute. reflexivity.
  - reflexivity.
Defined.

(** C6: with ErrorState = SWITCH_FAULT, [go_home] returns the machine as
    it was: position, direction, error state, last update time and both
    motor output registers are unchanged. *)
Theorem go_home_switch_fault_noop (p1 p2 : Pins) (m : Machine) :
  error_ (screen m) = ERR_SWITCH ->
  go_home p1 p2 m = m.
Proof. intros He. unfold go_home. rewrite He. reflexivity. Qed.

Lemma go_home_switch_fault_noop_witness :
  go_home (at_tick 5) (at_tick 6) switch_fault_example = switch_fault_example.
Proof.
  apply (go_home_switch_fault_noop (at_tick 5) (at_tick 6)
           switch_fault_example).
  reflexivity.
Defined.

(** C7: when the up-stop condition holds (an error is set, or the position
    is at or below the upper threshold, or the endswitch is asserted),
    [set_dir(DIR_UP)] changes nothing, the direction in particular; and
    when the down-stop condition holds (an error is set, or the position
    is at or above the lower threshold), [set_dir(DIR_DOWN)] changes
    nothing. *)
Theorem set_dir_refused_at_stop (p : Pins) (m : Machine) :
  (error_ (screen m) <> ERR_NONE
   \/ pos_ (screen m) <= SCREEN_UP_STOP_THRESHOLD
   \/ endswitch_in p = true ->
   motor_dir_ (screen (set_dir DIR_UP p m)) = motor_dir_ (screen m)
   /\ set_dir DIR_UP p m = m) /\
  (error_ (screen m) <> ERR_NONE
   \/ SCREEN_DN_STOP_THRESHOLD <= pos_ (screen m) ->
   motor_dir_ (screen (set_dir DIR_DOWN p m)) = motor_dir_ (screen m)
   /\ set_dir DIR_DOWN p m = m).
Proof.
  split; intros H.
  - apply up_stop_condition_iff in H.
    assert (E : set_dir DIR_UP p m = m).
    { unfold set_dir. rewrite H. cbn [negb].
      now destruct (Direction_eqb _ _). }
    now rewrite E.
  - apply down_stop_condition_iff in H.
    assert (E : set_dir DIR_DOWN p m = m).
    { unfold set_dir. rewrite H. cbn [negb].
      now destruct (Direction_eqb _ _). }
    now rewrite E.
Qed.

Lemma set_dir_refused_at_stop_witness :
  (motor_dir_ (screen (set_dir DIR_UP (at_tick_home 3) lowering_example))
   = DIR_DOWN
   /\ set_dir DIR_UP (at_tick_home 3) lowering_example = lowering_example)
  /\ (motor_dir_
        (screen (set_dir DIR_DOWN (at_tick 3) rotation_fault_example))
      = DIR_NEUTRAL
      /\ set_dir DIR_DOWN (at_tick 3) rotation_fault_example
         = rotation_fault_example).
Proof.
  split.
  - apply (proj1 (set_dir_refused_at_stop (at_tick_home 3) lowering_example)).
    right; right. vm_compute. reflexivity.
  - apply (proj2 (set_dir_refused_at_stop (at_tick 3) rotation_fault_example)).
    left. cbn. discriminate.
Defined.

(** C8: [event_endswitch_triggered] leaves the position as it is while
    Direction = DOWN and sets it to 0 while Direction is UP or NEUTRAL,
    whatever the position was. *)
Theorem event_endswitch_triggered_pos (m : Machine) :
  (motor_dir_ (screen m) = DIR_DOWN ->
   pos_ (screen (event_endswitch_triggered m)) = pos_ (screen m)) /\
  (motor_dir_ (screen m) = DIR_UP \/ motor_dir_ (screen m) = DIR_NEUTRAL ->
   pos_ (screen (event_endswitch_triggered m)) = 0).
Proof.
  unfold event_endswitch_triggered. split.
  - intros ->. reflexivity.
  - intros [-> | ->]; reflexivity.
Qed.

Lemma event_endswitch_triggered_pos_witness :
  pos_ (screen (event_endswitch_triggered lowering_example)) = 100
  /\ pos_ (screen (event_endswitch_triggered overrun_example)) = 0
  /\ pos_ (screen (event_endswitch_triggered rotation_fault_example)) = 0.
Proof.
  split; [| split].
  - apply (proj1 (event_endswitch_triggered_pos lowering_example)).
    reflexivity.
  - apply (proj2 (event_endswitch_triggered_pos overrun_example)).
    left. reflexivity.
  - apply (proj2 (event_endswitch_triggered_pos rotation_fault_example)).
    right. reflexivity.
Defined.

(** * Further properties *)

(** ** Clock *)

(** X1: for a millisecond value in the range of its parameter type,
    [ms_to_cycles] returns the exact tick count [ms * 7812 / 1000] if and
    only if [ms <= 8389]; longer durations lose their high bits when the
    result is narrowed to 16 bits. *)
Theorem ms_to_cycles_exact_iff (ms : Z) :
  0 <= ms < 2 ^ 16 ->
  (Clock.ms_to_cycles ms = ms * 7812 / 1000 <-> ms <= 8389).
Proof.
  intros Hms. unfold Clock.ms_to_cycles, wrap16, wrap32.
  change (F_CPU / 1024) with 7812.
  rewrite (Z.mod_small ms) by exact Hms.
  rewrite (Z.mod_small (ms * 7812)) by (change (2 ^ 16) with 65536 in Hms; lia).
  assert (Hq : 0 <= ms * 7812 / 1000) by (apply Z.div_pos; lia).
  split.
  - intros E.
    assert (Hlt : ms * 7812 / 1000 < 2 ^ 16).
    { rewrite <- E. apply Z.mod_pos_bound. reflexivity. }
    destruct (Z_le_gt_dec ms 8389) as [Hle | Hgt]; [exact Hle | exfalso].
    assert (65536 <= ms * 7812 / 1000)
      by (apply Z.div_le_lower_bound; lia).
    change (2 ^ 16) with 65536 in Hlt. lia.
  - intros Hle. apply Z.mod_small. split; [exact Hq |].
    change (2 ^ 16) with 65536.
    apply Z.div_lt_upper_bound; lia.
Qed.

Lemma ms_to_cycles_exact_iff_witness :
  Clock.ms_to_cycles 4000 = 4000 * 7812 / 1000 <-> 4000 <= 8389.
Proof. apply (ms_to_cycles_exact_iff 4000). lia. Defined.

(** X2: the elapsed-time subtraction survives the roll-over of the timer:
    when the 16-bit timer has advanced by [d] ticks, [0 <= d < 65536],
    since the sample whose [now()] was stored, the difference is [d],
    whatever the two counter values are. *)
Theorem since_elapsed (p q : Pins) (d : Z) :
  0 <= d < 2 ^ 16 ->
  TCNT1 q = wrap16 (TCNT1 p + d) ->
  Clock.since q (Clock.now p) = d.
Proof.
  intros Hd Hq. unfold Clock.since, Clock.now, wrap16 in *. rewrite Hq.
  rewrite Z.mod_mod by (vm_compute; discriminate).
  rewrite <- Zminus_mod.
  replace (TCNT1 p + d - TCNT1 p) with d by lia.
  now apply Z.mod_small.
Qed.

Lemma since_elapsed_witness :
  Clock.since (at_tick 4) (Clock.now (at_tick 65530)) = 10.
Proof.
  apply (since_elapsed (at_tick 65530) (at_tick 4) 10).
  - lia.
  - reflexivity.
Defined.

(** ** Ports *)

Lemma port_set_bit (port bit i : Z) :
  0 <= i ->
  Z.testbit (port_set port bit) i
  = (i <? 8) && (Z.testbit port i || Z.testbit bit i).
Proof.
  intros Hi. unfold port_set, wrap8.
  rewrite Z.testbit_mod_pow2 by lia. now rewrite Z.lor_spec.
Qed.

Lemma port_clear_bit (port bit i : Z) :
  0 <= i ->
  Z.testbit (port_clear port bit) i
  = (i <? 8) && (Z.testbit port i && negb (Z.testbit bit i)).
Proof.
  intros Hi. unfold port_clear, wrap8.
  rewrite Z.testbit_mod_pow2 by lia.
  now rewrite Z.land_spec, Z.lnot_spec.
Qed.

Lemma mask_bit (k i : Z) :
  0 <= k -> Z.testbit (Z.shiftl 1 k) i = (k =? i).
Proof.
  intros Hk. rewrite Z.shiftl_1_l. now apply Z.pow2_bits_eqb.
Qed.

(** ** Screen: what [set_dir] does *)

(** [set_dir] never touches [pos_]. *)
Lemma set_dir_pos (d : Direction) (p : Pins) (m : Machine) :
  pos_ (screen (set_dir d p m)) = pos_ (screen m).
Proof.
  unfold set_dir. destruct (Direction_eqb d _); [reflexivity |].
  destruct d; [reflexivity | |];
    match goal with |- context [negb ?c] => destruct c end; reflexivity.
Qed.

Lemma set_dir_up_when_clear (p : Pins) (m : Machine) :
  up_stop_condition p (screen m) = false ->
  motor_dir_ (screen (set_dir DIR_UP p m)) = DIR_UP.
Proof.
  intros Hu. unfold set_dir.
  destruct (Direction_eqb DIR_UP (motor_dir_ (screen m))) eqn:E.
  - apply Direction_eqb_eq in E. now symmetry.
  - now rewrite Hu.
Qed.

(** X3: [set_dir(d)] either switches the direction to [d] or changes
    nothing at all, registers included; in both cases the position and the
    error state stay as they were. *)
Theorem set_dir_switches_or_nothing (d : Direction) (p : Pins) (m : Machine) :
  (set_dir d p m = m
   \/ (motor_dir_ (screen (set_dir d p m)) = d
       /\ motor_dir_ (screen m) <> d))
  /\ pos_ (screen (set_dir d p m)) = pos_ (screen m)
  /\ error_ (screen (set_dir d p m)) = error_ (screen m).
Proof.
  unfold set_dir.
  destruct (Direction_eqb d (motor_dir_ (screen m))) eqn:E;
    [now repeat split; try left |].
  apply Direction_eqb_neq in E.
  destruct d.
  - repeat split. right. split; [reflexivity | congruence].
  - destruct (negb (up_stop_condition p (screen m)));
      [| now repeat split; try left].
    repeat split. right. split; [reflexivity | congruence].
  - destruct (negb (down_stop_condition (screen m)));
      [| now repeat split; try left].
    repeat split. right. split; [reflexivity | congruence].
Qed.

(** X4: a command to run is accepted exactly when it asks for a new
    direction and the stop condition of that direction does not hold:
    after [set_dir(DIR_UP)] the direction is UP if and only if it was UP
    already or the up-stop condition is false, and likewise for DOWN;
    [set_dir(DIR_NEUTRAL)] always ends in NEUTRAL. *)
Theorem set_dir_result (p : Pins) (m : Machine) :
  (motor_dir_ (screen (set_dir DIR_UP p m)) = DIR_UP <->
   motor_dir_ (screen m) = DIR_UP \/ up_stop_condition p (screen m) = false)
  /\ (motor_dir_ (screen (set_dir DIR_DOWN p m)) = DIR_DOWN <->
      motor_dir_ (screen m) = DIR_DOWN
      \/ down_stop_condition (screen m) = false)
  /\ motor_dir_ (screen (set_dir DIR_NEUTRAL p m)) = DIR_NEUTRAL.
Proof.
  split; [| split; [| apply set_dir_neutral_motor_dir]].
  - unfold set_dir.
    destruct (motor_dir_ (screen m)) eqn:Ed; cbn [Direction_eqb];
      try (split; [now left | reflexivity || (intros _; exact Ed)]);
      destruct (up_stop_condition p (screen m)); cbn [negb];
      cbn [screen motor_dir_]; rewrite ?Ed;
      split; intros H; try (now right); try reflexivity;
      try discriminate; destruct H; discriminate.
  - unfold set_dir.
    destruct (motor_dir_ (screen m)) eqn:Ed; cbn [Direction_eqb];
      try (split; [now left | reflexivity || (intros _; exact Ed)]);
      destruct (down_stop_condition (screen m)); cbn [negb];
      cbn [screen motor_dir_]; rewrite ?Ed;
      split; intros H; try (now right); try reflexivity;
      try discriminate; destruct H; discriminate.
Qed.

(** ** Screen: motor outputs *)

Lemma set_dir_outputs (d : Direction) (p : Pins) (m : Machine) :
  set_dir d p m = m \/ outputs_match_dir (set_dir d p m).
Proof.
  unfold set_dir.
  destruct (Direction_eqb d (motor_dir_ (screen m))); [now left |].
  destruct d.
  - right. split; unfold motor_up_output, motor_dn_output;
      cbn [PORTA PORTB screen motor_dir_ Direction_eqb];
      rewrite port_clear_bit by (vm_compute; discriminate);
      apply andb_false_iff; right; apply andb_false_iff; right; reflexivity.
  - destruct (negb (up_stop_condition p (screen m))); [right | now left].
    split; unfold motor_up_output, motor_dn_output;
      cbn [PORTA PORTB screen motor_dir_ Direction_eqb].
    + rewrite port_set_bit by (vm_compute; discriminate).
      cbn. apply orb_true_r.
    + rewrite port_clear_bit by (vm_compute; discriminate).
      apply andb_false_iff; right; apply andb_false_iff; right; reflexivity.
  - destruct (negb (down_stop_condition (screen m))); [right | now left].
    split; unfold motor_up_output, motor_dn_output;
      cbn [PORTA PORTB screen motor_dir_ Direction_eqb].
    + rewrite port_clear_bit by (vm_compute; discriminate).
      apply andb_false_iff; right; apply andb_false_iff; right; reflexivity.
    + rewrite port_set_bit by (vm_compute; discriminate).
      cbn. apply orb_true_r.
Qed.

(** X5: whenever [set_dir] changes the direction it leaves the H-bridge
    lines in step with it, whatever the ports held before: the up line is
    set exactly for UP, the down line exactly for DOWN. *)
Theorem set_dir_drives_outputs (d : Direction) (p : Pins) (m : Machine) :
  motor_dir_ (screen (set_dir d p m)) <> motor_dir_ (screen m) ->
  outputs_match_dir (set_dir d p m).
Proof.
  intros Hne. destruct (set_dir_outputs d p m) as [E | H]; [| exact H].
  rewrite E in Hne. congruence.
Qed.

Lemma set_dir_drives_outputs_witness :
  outputs_match_dir (set_dir DIR_UP (at_tick 3) lowering_example).
Proof.
  apply (set_dir_drives_outputs DIR_UP (at_tick 3) lowering_example).
  vm_compute. discriminate.
Defined.

(** The four things [check_stop_conditions] can do. *)
Lemma check_stop_conditions_shape (p : Pins) (m : Machine) :
  check_stop_conditions p m = m
  \/ check_stop_conditions p m = enter_error_state ERR_ROTATION p m
  \/ check_stop_conditions p m = enter_error_state ERR_SWITCH p m
  \/ check_stop_conditions p m = set_dir DIR_NEUTRAL p m.
Proof.
  unfold check_stop_conditions. cbv zeta.
  destruct (negb (Direction_eqb (motor_dir_ (screen m)) DIR_NEUTRAL)
            && (Clock.ms_to_cycles 1000
                <? Clock.since p (last_update_time_ (screen m)))).
  - right; left.
    destruct (enter_error_state_fields ERR_ROTATION p m) as [_ Hn].
    repeat (rewrite Hn; cbn [Direction_eqb andb orb]). reflexivity.
  - destruct (Direction_eqb (motor_dir_ (screen m)) DIR_UP
              && (pos_ (screen m) <=? SCREEN_UP_STOP_THRESHOLD)).
    + right; right; left.
      destruct (enter_error_state_fields ERR_SWITCH p m) as [_ Hn].
      repeat (rewrite Hn; cbn [Direction_eqb andb orb]). reflexivity.
    + destruct (_ || _); [now right; right; right | now left].
Qed.

Lemma with_error_outputs (e : ErrorType) (m : Machine) :
  outputs_match_dir m -> outputs_match_dir (with_error e m).
Proof. intros H. exact H. Qed.

Lemma step_outputs_match_dir (o : Op) (m : Machine) :
  outputs_match_dir m -> outputs_match_dir (step o m).
Proof.
  intros H. destruct o as [d p | p1 p2 | p | | p]; cbn [step].
  - destruct (set_dir_outputs d p m) as [E | E]; [now rewrite E | exact E].
  - unfold go_home. destruct (ErrorType_eqb _ _); [exact H |].
    destruct (endswitch_in p1); [exact H |].
    destruct (set_dir_outputs DIR_UP p2
                (with_pos SCREEN_DN_STOP_THRESHOLD (with_error ERR_NONE m)))
      as [E | E]; [rewrite E; exact H | exact E].
  - exact H.
  - unfold event_endswitch_triggered. destruct (negb _); exact H.
  - assert (Hn : outputs_match_dir (set_dir DIR_NEUTRAL p m))
      by (destruct (set_dir_outputs DIR_NEUTRAL p m) as [E | E];
          [now rewrite E | exact E]).
    destruct (check_stop_conditions_shape p m) as [E | [E | [E | E]]];
      rewrite E; [exact H | | | exact Hn];
      unfold enter_error_state; now apply with_error_outputs.
Qed.



Lemma set_dir_other_bits (d : Direction) (p : Pins) (m : Machine) (i : Z) :
  0 <= i < 8 ->
  (i <> Z.log2 OUT_MOT_DN_A ->
   Z.testbit (PORTA (set_dir d p m)) i = Z.testbit (PORTA m) i)
  /\ (i <> Z.log2 OUT_MOT_UP_B ->
      Z.testbit (PORTB (set_dir d p m)) i = Z.testbit (PORTB m) i).
Proof.
  intros Hi.
  assert (Hlt : (i <? 8) = true) by (apply Z.ltb_lt; lia).
  change (Z.log2 OUT_MOT_DN_A) with 6. change (Z.log2 OUT_MOT_UP_B) with 0.
  assert (Ha : i <> 6 -> Z.testbit OUT_MOT_DN_A i = false).
  { intros Hne. unfold OUT_MOT_DN_A. rewrite mask_bit by lia.
    apply Z.eqb_neq. congruence. }
  assert (Hb : i <> 0 -> Z.testbit OUT_MOT_UP_B i = false).
  { intros Hne. unfold OUT_MOT_UP_B. rewrite mask_bit by lia.
    apply Z.eqb_neq. congruence. }
  unfold set_dir.
  destruct (Direction_eqb d (motor_dir_ (screen m))); [now split |].
  destruct d;
    [| destruct (negb (up_stop_condition p (screen m))); [| now split]
     | destruct (negb (down_stop_condition (screen m))); [| now split]];
    cbn [PORTA PORTB]; split; intros Hne;
    rewrite ?port_set_bit, ?port_clear_bit by lia;
    rewrite Hlt, ?(Ha Hne), ?(Hb Hne); cbn [andb negb];
    rewrite ?orb_false_r, ?andb_true_r; reflexivity.
Qed.

(** X7: no operation of the screen touches a port bit other than its own
    two: bits 0..7 of PORTA except the motor-down bit, and of PORTB except
    the motor-up bit, are the same before and after every operation (so
    the pull-ups, the bias and the LED stay as they are). *)
Theorem step_other_port_bits (o : Op) (m : Machine) (i : Z) :
  0 <= i < 8 ->
  (i <> Z.log2 OUT_MOT_DN_A ->
   Z.testbit (PORTA (step o m)) i = Z.testbit (PORTA m) i)
  /\ (i <> Z.log2 OUT_MOT_UP_B ->
      Z.testbit (PORTB (step o m)) i = Z.testbit (PORTB m) i).
Proof.
  intros Hi. destruct o as [d p | p1 p2 | p | | p]; cbn [step].
  - now apply set_dir_other_bits.
  - unfold go_home. destruct (ErrorType_eqb _ _); [now split |].
    destruct (endswitch_in p1); [now split |].
    apply (set_dir_other_bits DIR_UP p2
             (with_pos SCREEN_DN_STOP_THRESHOLD (with_error ERR_NONE m)) i Hi).
  - now split.
  - unfold event_endswitch_triggered. destruct (negb _); now split.
  - destruct (check_stop_conditions_shape p m) as [E | [E | [E | E]]];
      rewrite E; [now split | | | now apply set_dir_other_bits];
      unfold enter_error_state, with_error; cbn [PORTA PORTB];
      now apply set_dir_other_bits.
Qed.

Lemma step_other_port_bits_witness :
  Z.testbit
    (PORTB (step (OpGoHome (at_tick 0) (at_tick 0)) (main_init 0 0))) 1
  = Z.testbit (PORTB (main_init 0 0)) 1.
Proof.
  apply (proj2 (step_other_port_bits (OpGoHome (at_tick 0) (at_tick 0))
                  (main_init 0 0) 1 ltac:(lia))).
  vm_compute. discriminate.
Defined.

(** ** Screen: encoder ticks *)

Lemma swrap16_small (z : Z) : - 2 ^ 15 <= z < 2 ^ 15 -> swrap16 z = z.
Proof.
  intros H. unfold swrap16.
  change (2 ^ 15) with 32768 in *. change (2 ^ 16) with 65536.
  rewrite Z.mod_small; lia.
Qed.

Lemma rotation_ticks_cons (p : Pins) (ps : list Pins) (m : Machine) :
  rotation_ticks (p :: ps) m = rotation_ticks ps (event_rotation_tick p m).
Proof. reflexivity. Qed.

Lemma rotation_ticks_fields (ps : list Pins) (m : Machine) :
  motor_dir_ (screen (rotation_ticks ps m)) = motor_dir_ (screen m)
  /\ error_ (screen (rotation_ticks ps m)) = error_ (screen m)
  /\ PORTA (rotation_ticks ps m) = PORTA m
  /\ PORTB (rotation_ticks ps m) = PORTB m.
Proof.
  revert m. induction ps as [| p ps IH]; intros m; [now repeat split |].
  rewrite rotation_ticks_cons.
  destruct (IH (event_rotation_tick p m)) as [H1 [H2 [H3 H4]]].
  rewrite H1, H2, H3, H4. now repeat split.
Qed.

Lemma rotation_ticks_down (ps : list Pins) (m : Machine) :
  motor_dir_ (screen m) = DIR_DOWN ->
  - 2 ^ 15 <= pos_ (screen m) ->
  pos_ (screen m) + Z.of_nat (length ps) < 2 ^ 15 ->
  pos_ (screen (rotation_ticks ps m))
  = pos_ (screen m) + Z.of_nat (length ps).
Proof.
  revert m. induction ps as [| p ps IH]; intros m Hd Hlo Hhi.
  - cbn. lia.
  - rewrite rotation_ticks_cons.
    cbn [length] in *. rewrite Nat2Z.inj_succ in *.
    rewrite IH; cbn [event_rotation_tick screen pos_ motor_dir_];
      rewrite ?Hd; try reflexivity; rewrite swrap16_small; lia.
Qed.

Lemma rotation_ticks_up (ps : list Pins) (m : Machine) :
  motor_dir_ (screen m) = DIR_UP ->
  pos_ (screen m) < 2 ^ 15 ->
  - 2 ^ 15 <= pos_ (screen m) - Z.of_nat (length ps) ->
  pos_ (screen (rotation_ticks ps m))
  = pos_ (screen m) - Z.of_nat (length ps).
Proof.
  revert m. induction ps as [| p ps IH]; intros m Hd Hhi Hlo.
  - cbn. lia.
  - rewrite rotation_ticks_cons.
    cbn [length] in *. rewrite Nat2Z.inj_succ in *.
    rewrite IH; cbn [event_rotation_tick screen pos_ motor_dir_];
      rewrite ?Hd; try reflexivity; rewrite swrap16_small; lia.
Qed.

Lemma rotation_ticks_neutral (ps : list Pins) (m : Machine) :
  motor_dir_ (screen m) = DIR_NEUTRAL ->
  pos_ (screen (rotation_ticks ps m)) = pos_ (screen m).
Proof.
  revert m. induction ps as [| p ps IH]; intros m Hd; [reflexivity |].
  rewrite rotation_ticks_cons.
  rewrite IH; cbn [event_rotation_tick screen pos_ motor_dir_];
    rewrite ?Hd; reflexivity.
Qed.

(** X8: a burst of [n] encoder ticks moves the position by exactly [n]:
    up by [n] while the direction is DOWN, down by [n] while it is UP (as
    long as the 16-bit position does not overflow), and not at all while
    NEUTRAL.  Direction and error state are not touched. *)
Theorem rotation_ticks_pos (ps : list Pins) (m : Machine) :
  (motor_dir_ (screen m) = DIR_DOWN ->
   - 2 ^ 15 <= pos_ (screen m) ->
   pos_ (screen m) + Z.of_nat (length ps) < 2 ^ 15 ->
   pos_ (screen (rotation_ticks ps m))
   = pos_ (screen m) + Z.of_nat (length ps))
  /\ (motor_dir_ (screen m) = DIR_UP ->
      pos_ (screen m) < 2 ^ 15 ->
      - 2 ^ 15 <= pos_ (screen m) - Z.of_nat (length ps) ->
      pos_ (screen (rotation_ticks ps m))
      = pos_ (screen m) - Z.of_nat (length ps))
  /\ (motor_dir_ (screen m) = DIR_NEUTRAL ->
      pos_ (screen (rotation_ticks ps m)) = pos_ (screen m))
  /\ motor_dir_ (screen (rotation_ticks ps m)) = motor_dir_ (screen m)
  /\ error_ (screen (rotation_ticks ps m)) = error_ (screen m).
Proof.
  split; [apply rotation_ticks_down |].
  split; [apply rotation_ticks_up |].
  split; [apply rotation_ticks_neutral |].
  split; apply rotation_ticks_fields.
Qed.

Lemma rotation_ticks_pos_witness :
  pos_ (screen (rotation_ticks [at_tick 1; at_tick 2; at_tick 3]
                  lowering_example)) = 100 + 3
  /\ pos_ (screen (rotation_ticks [at_tick 1; at_tick 2] overrun_example))
     = -4 - 2
  /\ pos_ (screen (rotation_ticks [at_tick 1] rotation_fault_example)) = 100.
Proof.
  split; [| split].
  - apply (proj1 (rotation_ticks_pos [at_tick 1; at_tick 2; at_tick 3]
                    lowering_example)).
    + reflexivity.
    + vm_compute. discriminate.
    + vm_compute. reflexivity.
  - apply (proj1 (proj2 (rotation_ticks_pos [at_tick 1; at_tick 2]
                           overrun_example))).
    + reflexivity.
    + vm_compute. reflexivity.
    + vm_compute. discriminate.
  - apply (proj1 (proj2 (proj2 (rotation_ticks_pos [at_tick 1]
                                  rotation_fault_example)))).
    reflexivity.
Defined.

(** The time stamp after a burst is [now()] of its last tick. *)
Lemma rotation_ticks_last_update (ps : list Pins) (p : Pins) (m : Machine) :
  last_update_time_ (screen (rotation_ticks (ps ++ [p]) m)) = Clock.now p.
Proof.
  unfold rotation_ticks. rewrite fold_left_app. reflexivity.
Qed.

(** ** Screen: what [check_stop_conditions] leaves behind *)

Lemma check_stop_conditions_not_stalled (p : Pins) (m : Machine) :
  Clock.since p (last_update_time_ (screen m)) <= Clock.ms_to_cycles 1000 ->
  check_stop_conditions p m
  = if Direction_eqb (motor_dir_ (screen m)) DIR_UP
       && (pos_ (screen m) <=? SCREEN_UP_STOP_THRESHOLD)
    then enter_error_state ERR_SWITCH p m
    else if (Direction_eqb (motor_dir_ (screen m)) DIR_UP
             && up_stop_condition p (screen m))
            || (Direction_eqb (motor_dir_ (screen m)) DIR_DOWN
                && down_stop_condition (screen m))
         then set_dir DIR_NEUTRAL p m
         else m.
Proof.
  intros Ht. unfold check_stop_conditions. cbv zeta.
  apply Z.ltb_ge in Ht. rewrite Ht, andb_false_r.
  destruct (Direction_eqb (motor_dir_ (screen m)) DIR_UP
            && (pos_ (screen m) <=? SCREEN_UP_STOP_THRESHOLD));
    [| reflexivity].
  destruct (enter_error_state_fields ERR_SWITCH p m) as [_ Hn].
  repeat (rewrite Hn; cbn [Direction_eqb andb orb]). reflexivity.
Qed.

(** X9: after [check_stop_conditions] a motor that is still running is
    running legitimately: no error is set, the last tick is at most
    [ms_to_cycles(1000)] ticks old, the position is strictly inside the
    threshold of its direction and, going up, the endswitch is not
    asserted. *)
Theorem check_stop_conditions_running_within_limits (p : Pins) (m : Machine) :
  (motor_dir_ (screen (check_stop_conditions p m)) = DIR_UP ->
   check_stop_conditions p m = m
   /\ error_ (screen m) = ERR_NONE
   /\ SCREEN_UP_STOP_THRESHOLD < pos_ (screen m)
   /\ endswitch_in p = false
   /\ Clock.since p (last_update_time_ (screen m))
      <= Clock.ms_to_cycles 1000)
  /\ (motor_dir_ (screen (check_stop_conditions p m)) = DIR_DOWN ->
      check_stop_conditions p m = m
      /\ error_ (screen m) = ERR_NONE
      /\ pos_ (screen m) < SCREEN_DN_STOP_THRESHOLD
      /\ Clock.since p (last_update_time_ (screen m))
         <= Clock.ms_to_cycles 1000).
Proof.
  assert (Hrun : motor_dir_ (screen (check_stop_conditions p m))
                 <> DIR_NEUTRAL ->
                 check_stop_conditions p m = m
                 /\ Clock.since p (last_update_time_ (screen m))
                    <= Clock.ms_to_cycles 1000).
  { intros Hd.
    destruct (check_stop_conditions_cases p m) as [E | E];
      [| congruence].
    split; [exact E |]. rewrite E in Hd.
    destruct (Z_le_gt_dec (Clock.since p (last_update_time_ (screen m)))
                (Clock.ms_to_cycles 1000)) as [Hle | Hgt]; [exact Hle |].
    exfalso.
    assert (Hs := check_stop_conditions_stalled p m Hd ltac:(lia)).
    rewrite E in Hs.
    destruct (enter_error_state_fields ERR_ROTATION p m) as [_ Hn].
    rewrite <- Hs in Hn. contradiction. }
  split; intros Hd.
  - destruct Hrun as [E Ht]; [congruence |].
    rewrite E in Hd. split; [exact E |].
    pose proof (check_stop_conditions_not_stalled p m Ht) as Hc.
    rewrite E, Hd in Hc. cbn [Direction_eqb andb orb] in Hc.
    destruct (pos_ (screen m) <=? SCREEN_UP_STOP_THRESHOLD) eqn:Ep.
    { destruct (enter_error_state_fields ERR_SWITCH p m) as [_ Hn].
      cbn [andb orb] in Hc. rewrite <- Hc, Hd in Hn. discriminate. }
    destruct (up_stop_condition p (screen m)) eqn:Eu.
    { pose proof (set_dir_neutral_motor_dir p m) as Hn.
      cbn [andb orb] in Hc. rewrite <- Hc, Hd in Hn. discriminate. }
    unfold up_stop_condition in Eu. rewrite Ep in Eu.
    apply orb_false_iff in Eu. destruct Eu as [Eu Es].
    apply orb_false_iff in Eu. destruct Eu as [Ee _].
    apply Z.leb_gt in Ep.
    repeat split; try assumption.
    destruct (error_ (screen m)); [reflexivity | discriminate ..].
  - destruct Hrun as [E Ht]; [congruence |].
    rewrite E in Hd. split; [exact E |].
    pose proof (check_stop_conditions_not_stalled p m Ht) as Hc.
    rewrite E, Hd in Hc. cbn [Direction_eqb andb orb] in Hc.
    destruct (down_stop_condition (screen m)) eqn:Eu.
    { pose proof (set_dir_neutral_motor_dir p m) as Hn.
      cbn [andb orb] in Hc. rewrite <- Hc, Hd in Hn. discriminate. }
    unfold down_stop_condition in Eu.
    apply orb_false_iff in Eu. destruct Eu as [Ee Ep].
    apply Z.leb_gt in Ep.
    repeat split; try assumption.
    destruct (error_ (screen m)); [reflexivity | discriminate ..].
Qed.

Lemma check_stop_conditions_running_within_limits_witness :
  check_stop_conditions (at_tick 5) lowering_example = lowering_example
  /\ error_ (screen lowering_example) = ERR_NONE
  /\ pos_ (screen lowering_example) < SCREEN_DN_STOP_THRESHOLD
  /\ Clock.since (at_tick 5) (last_update_time_ (screen lowering_example))
     <= Clock.ms_to_cycles 1000.
Proof.
  apply (proj2 (check_stop_conditions_running_within_limits
                  (at_tick 5) lowering_example)).
  vm_compute. reflexivity.
Defined.

Lemma set_dir_neutral_fields (p : Pins) (m : Machine) :
  pos_ (screen (set_dir DIR_NEUTRAL p m)) = pos_ (screen m)
  /\ error_ (screen (set_dir DIR_NEUTRAL p m)) = error_ (screen m)
  /\ last_update_time_ (screen (set_dir DIR_NEUTRAL p m))
     = last_update_time_ (screen m).
Proof.
  unfold set_dir. destruct (Direction_eqb _ _); now repeat split.
Qed.

Lemma set_dir_neutral_outputs_off (p : Pins) (m : Machine) :
  motor_dir_ (screen m) <> DIR_NEUTRAL ->
  motor_up_output (set_dir DIR_NEUTRAL p m) = false
  /\ motor_dn_output (set_dir DIR_NEUTRAL p m) = false.
Proof.
  intros Hd.
  assert (H : outputs_match_dir (set_dir DIR_NEUTRAL p m)).
  { destruct (set_dir_outputs DIR_NEUTRAL p m) as [E | H]; [| exact H].
    pose proof (set_dir_neutral_motor_dir p m) as Hn.
    rewrite E in Hn. contradiction. }
  destruct H as [Hu Hn]. rewrite set_dir_neutral_motor_dir in Hu, Hn.
  now split.
Qed.

(** Stopping a running motor: what [set_dir(DIR_NEUTRAL)] and
    [enter_error_state] leave behind. *)
Lemma set_dir_neutral_stop (p : Pins) (m : Machine) :
  motor_dir_ (screen m) <> DIR_NEUTRAL ->
  motor_dir_ (screen (set_dir DIR_NEUTRAL p m)) = DIR_NEUTRAL
  /\ error_ (screen (set_dir DIR_NEUTRAL p m)) = error_ (screen m)
  /\ pos_ (screen (set_dir DIR_NEUTRAL p m)) = pos_ (screen m)
  /\ motor_up_output (set_dir DIR_NEUTRAL p m) = false
  /\ motor_dn_output (set_dir DIR_NEUTRAL p m) = false.
Proof.
  intros Hd.
  destruct (set_dir_neutral_fields p m) as [Hp [He _]].
  destruct (set_dir_neutral_outputs_off p m Hd) as [Hu Hn].
  split; [apply set_dir_neutral_motor_dir | now repeat split].
Qed.

Lemma enter_error_state_stop (type : ErrorType) (p : Pins) (m : Machine) :
  motor_dir_ (screen m) <> DIR_NEUTRAL ->
  error_ (screen (enter_error_state type p m)) = type
  /\ motor_dir_ (screen (enter_error_state type p m)) = DIR_NEUTRAL
  /\ pos_ (screen (enter_error_state type p m)) = pos_ (screen m)
  /\ motor_up_output (enter_error_state type p m) = false
  /\ motor_dn_output (enter_error_state type p m) = false.
Proof.
  intros Hd.
  destruct (set_dir_neutral_stop p m Hd) as [Hn [_ [Hp [Hu Hdn]]]].
  unfold enter_error_state, with_error, motor_up_output, motor_dn_output.
  cbn [screen error_ motor_dir_ pos_ PORTA PORTB].
  now repeat split.
Qed.

Lemma check_stop_conditions_overrun (p : Pins) (m : Machine) :
  motor_dir_ (screen m) = DIR_UP ->
  Clock.since p (last_update_time_ (screen m)) <= Clock.ms_to_cycles 1000 ->
  pos_ (screen m) <= SCREEN_UP_STOP_THRESHOLD ->
  check_stop_conditions p m = enter_error_state ERR_SWITCH p m.
Proof.
  intros Hd Ht Hp.
  rewrite (check_stop_conditions_not_stalled p m Ht), Hd.
  apply Z.leb_le in Hp. now rewrite Hp.
Qed.

Lemma check_stop_conditions_at_limit (p : Pins) (m : Machine) :
  Clock.since p (last_update_time_ (screen m)) <= Clock.ms_to_cycles 1000 ->
  (motor_dir_ (screen m) = DIR_UP
   /\ SCREEN_UP_STOP_THRESHOLD < pos_ (screen m)
   /\ endswitch_in p = true)
  \/ (motor_dir_ (screen m) = DIR_DOWN
      /\ SCREEN_DN_STOP_THRESHOLD <= pos_ (screen m)) ->
  check_stop_conditions p m = set_dir DIR_NEUTRAL p m.
Proof.
  intros Ht H.
  rewrite (check_stop_conditions_not_stalled p m Ht).
  destruct H as [[Hd [Hp Hs]] | [Hd Hp]]; rewrite Hd;
    cbn [Direction_eqb andb orb].
  - apply Z.leb_gt in Hp. rewrite Hp.
    unfold up_stop_condition. rewrite Hs, orb_true_r. reflexivity.
  - unfold down_stop_condition. apply Z.leb_le in Hp.
    rewrite Hp, orb_true_r. reflexivity.
Qed.

(** X10: the switch fault.  Going up with a fresh enough tick, a position
    at or below the upper threshold makes [check_stop_conditions] stop the
    motor (direction NEUTRAL, both H-bridge lines low) and set
    ErrorState = SWITCH_FAULT; the position is kept. *)
Theorem check_stop_conditions_switch_fault (p : Pins) (m : Machine) :
  motor_dir_ (screen m) = DIR_UP ->
  Clock.since p (last_update_time_ (screen m)) <= Clock.ms_to_cycles 1000 ->
  pos_ (screen m) <= SCREEN_UP_STOP_THRESHOLD ->
  error_ (screen (check_stop_conditions p m)) = ERR_SWITCH
  /\ motor_dir_ (screen (check_stop_conditions p m)) = DIR_NEUTRAL
  /\ pos_ (screen (check_stop_conditions p m)) = pos_ (screen m)
  /\ motor_up_output (check_stop_conditions p m) = false
  /\ motor_dn_output (check_stop_conditions p m) = false.
Proof.
  intros Hd Ht Hp.
  rewrite (check_stop_conditions_overrun p m Hd Ht Hp).
  apply enter_error_state_stop. congruence.
Qed.

Lemma check_stop_conditions_switch_fault_witness :
  error_ (screen (check_stop_conditions (at_tick 9) overrun_example))
  = ERR_SWITCH
  /\ motor_dir_ (screen (check_stop_conditions (at_tick 9) overrun_example))
     = DIR_NEUTRAL
  /\ pos_ (screen (check_stop_conditions (at_tick 9) overrun_example))
     = pos_ (screen overrun_example)
  /\ motor_up_output (check_stop_conditions (at_tick 9) overrun_example)
     = false
  /\ motor_dn_output (check_stop_conditions (at_tick 9) overrun_example)
     = false.
Proof.
  apply (check_stop_conditions_switch_fault (at_tick 9) overrun_example).
  - reflexivity.
  - vm_compute. discriminate.
  - vm_compute. discriminate.
Defined.

(** X11: an ordinary stop is not a fault.  With a fresh enough tick, going
    up above the upper threshold with the endswitch asserted, or going
    down at or beyond the lower threshold, [check_stop_conditions] stops
    the motor (direction NEUTRAL, both H-bridge lines low) and leaves
    error state and position as they were. *)
Theorem check_stop_conditions_limit_stop (p : Pins) (m : Machine) :
  Clock.since p (last_update_time_ (screen m)) <= Clock.ms_to_cycles 1000 ->
  (motor_dir_ (screen m) = DIR_UP
   /\ SCREEN_UP_STOP_THRESHOLD < pos_ (screen m)
   /\ endswitch_in p = true)
  \/ (motor_dir_ (screen m) = DIR_DOWN
      /\ SCREEN_DN_STOP_THRESHOLD <= pos_ (screen m)) ->
  motor_dir_ (screen (check_stop_conditions p m)) = DIR_NEUTRAL
  /\ error_ (screen (check_stop_conditions p m)) = error_ (screen m)
  /\ pos_ (screen (check_stop_conditions p m)) = pos_ (screen m)
  /\ motor_up_output (check_stop_conditions p m) = false
  /\ motor_dn_output (check_stop_conditions p m) = false.
Proof.
  intros Ht H.
  rewrite (check_stop_conditions_at_limit p m Ht H).
  apply set_dir_neutral_stop.
  destruct H as [[Hd _] | [Hd _]]; congruence.
Qed.

Lemma check_stop_conditions_limit_stop_witness :
  motor_dir_
    (screen (check_stop_conditions (at_tick_home 9)
               (set_dir DIR_UP (at_tick 0) lowering_example)))
  = DIR_NEUTRAL
  /\ error_ (screen (check_stop_conditions (at_tick 9)
                       (with_pos 258 lowering_example)))
     = ERR_NONE.
Proof.
  split.
  - apply (check_stop_conditions_limit_stop (at_tick_home 9)
             (set_dir DIR_UP (at_tick 0) lowering_example)).
    + vm_compute. discriminate.
    + left. split; [reflexivity |].
      split; [vm_compute; reflexivity | reflexivity].
  - apply (check_stop_conditions_limit_stop (at_tick 9)
             (with_pos 258 lowering_example)).
    + vm_compute. discriminate.
    + right. split; [reflexivity | vm_compute; discriminate].
Defined.

(** X12: a second [check_stop_conditions] on the same inputs finds
    nothing left to do. *)
Theorem check_stop_conditions_idempotent (p : Pins) (m : Machine) :
  check_stop_conditions p (check_stop_conditions p m)
  = check_stop_conditions p m.
Proof.
  destruct (check_stop_conditions_cases p m) as [E | E].
  - now rewrite !E.
  - now apply check_stop_conditions_neutral.
Qed.

(** ** Screen: homing *)

Lemma set_dir_up_accepted (p : Pins) (m : Machine) :
  motor_dir_ (screen m) <> DIR_UP ->
  up_stop_condition p (screen m) = false ->
  set_dir DIR_UP p m
  = {| screen := {| error_ := error_ (screen m);
                    motor_dir_ := DIR_UP;
                    pos_ := pos_ (screen m);
                    last_update_time_ := Clock.now p |};
       PORTA := port_clear (PORTA m) OUT_MOT_DN_A;
       PORTB := port_set (PORTB m) OUT_MOT_UP_B |}.
Proof.
  intros Hd Hu. unfold set_dir. rewrite Hu.
  destruct (Direction_eqb DIR_UP (motor_dir_ (screen m))) eqn:E;
    [| reflexivity].
  apply Direction_eqb_eq in E. congruence.
Qed.

(** X13: [go_home] outside the switch fault always clears the error.  If
    the endswitch is asserted it does nothing else; if the endswitch is
    released it assumes the far end, position [SCREEN_DN_STOP_THRESHOLD],
    and the motor runs up. *)
Theorem go_home_effect (p1 p2 : Pins) (m : Machine) :
  error_ (screen m) <> ERR_SWITCH ->
  error_ (screen (go_home p1 p2 m)) = ERR_NONE
  /\ (endswitch_in p1 = true -> go_home p1 p2 m = with_error ERR_NONE m)
  /\ (endswitch_in p1 = false -> endswitch_in p2 = false ->
      motor_dir_ (screen (go_home p1 p2 m)) = DIR_UP
      /\ pos_ (screen (go_home p1 p2 m)) = SCREEN_DN_STOP_THRESHOLD).
Proof.
  intros He. unfold go_home.
  replace (ErrorType_eqb (error_ (screen m)) ERR_SWITCH) with false
    by (destruct (error_ (screen m)); cbn; congruence).
  split; [| split].
  - destruct (endswitch_in p1); [reflexivity |].
    rewrite set_dir_error. reflexivity.
  - intros ->. reflexivity.
  - intros -> H2.
    split; [| apply set_dir_pos].
    apply set_dir_up_when_clear.
    unfold up_stop_condition. rewrite H2. reflexivity.
Qed.

Lemma go_home_effect_witness :
  error_ (screen (go_home (at_tick 1) (at_tick 2) rotation_fault_example))
  = ERR_NONE
  /\ motor_dir_
       (screen (go_home (at_tick 1) (at_tick 2) rotation_fault_example))
     = DIR_UP
  /\ pos_ (screen (go_home (at_tick 1) (at_tick 2) rotation_fault_example))
     = SCREEN_DN_STOP_THRESHOLD.
Proof.
  destruct (go_home_effect (at_tick 1) (at_tick 2) rotation_fault_example)
    as [He [_ Hu]].
  - cbn. discriminate.
  - split; [exact He |]. apply Hu; reflexivity.
Defined.

Lemma run_rotation_ticks (ps : list Pins) (m : Machine) :
  run (map OpRotationTick ps) m = rotation_ticks ps m.
Proof.
  revert m. induction ps as [| p ps IH]; intros m; [reflexivity |].
  cbn [map]. rewrite rotation_ticks_cons. apply IH.
Qed.

Lemma last_cons_default (A : Type) (a d : A) (l : list A) :
  last (a :: l) d = last l a.
Proof.
  revert a d. induction l as [| b l IH]; intros a d; [reflexivity |].
  change (last (a :: b :: l) d) with (last (b :: l) d).
  now rewrite !IH.
Qed.

Lemma rotation_ticks_last_update_time (ps : list Pins) (m : Machine) :
  last_update_time_ (screen (rotation_ticks ps m))
  = last (map Clock.now ps) (last_update_time_ (screen m)).
Proof.
  revert m. induction ps as [| p ps IH]; intros m; [reflexivity |].
  rewrite rotation_ticks_cons, IH. cbn [map].
  now rewrite last_cons_default.
Qed.

(** The state right after an accepted [go_home], then [ps] ticks. *)
Lemma homing_run (p1 p2 : Pins) (ps : list Pins) (m : Machine) :
  error_ (screen m) <> ERR_SWITCH ->
  motor_dir_ (screen m) <> DIR_UP ->
  endswitch_in p1 = false ->
  endswitch_in p2 = false ->
  Z.of_nat (length ps) <= 2 ^ 15 ->
  let r := rotation_ticks ps (go_home p1 p2 m) in
  error_ (screen r) = ERR_NONE
  /\ motor_dir_ (screen r) = DIR_UP
  /\ pos_ (screen r) = SCREEN_DN_STOP_THRESHOLD - Z.of_nat (length ps)
  /\ last_update_time_ (screen r) = last (map Clock.now ps) (Clock.now p2).
Proof.
  intros He Hd H1 H2 Hn r.
  assert (Eg : go_home p1 p2 m
               = {| screen := {| error_ := ERR_NONE;
                                 motor_dir_ := DIR_UP;
                                 pos_ := SCREEN_DN_STOP_THRESHOLD;
                                 last_update_time_ := Clock.now p2 |};
                    PORTA := port_clear (PORTA m) OUT_MOT_DN_A;
                    PORTB := port_set (PORTB m) OUT_MOT_UP_B |}).
  { unfold go_home.
    replace (ErrorType_eqb (error_ (screen m)) ERR_SWITCH) with false
      by (destruct (error_ (screen m)); cbn; congruence).
    rewrite H1. rewrite set_dir_up_accepted; [reflexivity | exact Hd |].
    unfold up_stop_condition. rewrite H2. reflexivity. }
  subst r. rewrite Eg.
  match goal with |- context [rotation_ticks ps ?g] => set (m0 := g) end.
  destruct (rotation_ticks_fields ps m0) as [Hdir [Herr _]].
  rewrite Herr, Hdir, rotation_ticks_last_update_time.
  split; [reflexivity |]. split; [reflexivity |]. split; [| reflexivity].
  apply rotation_ticks_up; [reflexivity | |]; cbn [m0 screen pos_];
    unfold SCREEN_DN_STOP_THRESHOLD; change (2 ^ 15) with 32768 in *; lia.
Qed.

(** X14: a homing run that meets the endswitch ends at home without a
    fault.  From a state outside the switch fault and not already running
    up: after [go_home] with the endswitch released, up to 261 encoder
    ticks, a [check_stop_conditions] that sees the endswitch asserted at
    most [ms_to_cycles(1000)] ticks after the last encoder tick (or after
    the start, if no tick came), and the endswitch event, the motor is off,
    no error is set and the position is 0. *)
Theorem homing_reaches_endswitch
    (p1 p2 p : Pins) (ps : list Pins) (m : Machine) :
  error_ (screen m) <> ERR_SWITCH ->
  motor_dir_ (screen m) <> DIR_UP ->
  endswitch_in p1 = false ->
  endswitch_in p2 = false ->
  Z.of_nat (length ps) <= 261 ->
  endswitch_in p = true ->
  Clock.since p (last (map Clock.now ps) (Clock.now p2))
  <= Clock.ms_to_cycles 1000 ->
  let r := run (OpGoHome p1 p2 :: map OpRotationTick ps
                ++ [OpCheckStopConditions p; OpEndswitchTriggered]) m in
  error_ (screen r) = ERR_NONE
  /\ motor_dir_ (screen r) = DIR_NEUTRAL
  /\ pos_ (screen r) = 0
  /\ motor_up_output r = false
  /\ motor_dn_output r = false.
Proof.
  intros He Hd H1 H2 Hn Hs Ht r. subst r.
  change (run (OpGoHome p1 p2 :: ?l) m) with (run l (go_home p1 p2 m)).
  rewrite run_app, run_rotation_ticks.
  destruct (homing_run p1 p2 ps m He Hd H1 H2) as [Ee [Ed [Ep El]]];
    [change (2 ^ 15) with 32768; lia |].
  set (m1 := rotation_ticks ps (go_home p1 p2 m)) in *.
  cbn [run fold_left step].
  rewrite (check_stop_conditions_at_limit p m1).
  2: { now rewrite El. }
  2: { left. split; [exact Ed |]. split; [| exact Hs].
       rewrite Ep. unfold SCREEN_DN_STOP_THRESHOLD, SCREEN_UP_STOP_THRESHOLD.
       lia. }
  destruct (set_dir_neutral_stop p m1) as [Cd [Ce [Cp [Cu Cn]]]];
    [congruence |].
  unfold event_endswitch_triggered. rewrite Cd. cbn [Direction_eqb negb].
  unfold with_pos, motor_up_output, motor_dn_output.
  cbn [screen error_ motor_dir_ pos_ PORTA PORTB].
  rewrite Ce, Ee. now repeat split.
Qed.

Lemma homing_reaches_endswitch_witness :
  pos_ (screen (run (OpGoHome (at_tick 0) (at_tick 0)
                     :: map OpRotationTick [at_tick 10; at_tick 20]
                     ++ [OpCheckStopConditions (at_tick_home 30);
                         OpEndswitchTriggered])
                  rotation_fault_example)) = 0.
Proof.
  apply (homing_reaches_endswitch (at_tick 0) (at_tick 0) (at_tick_home 30)
           [at_tick 10; at_tick 20] rotation_fault_example).
  - cbn. discriminate.
  - cbn. discriminate.
  - reflexivity.
  - reflexivity.
  - cbn. lia.
  - reflexivity.
  - vm_compute. discriminate.
Defined.

(** X15: a homing run that never meets the endswitch ends in the switch
    fault.  From a state outside the switch fault and not already running
    up: after [go_home] with the endswitch released and at least 262
    encoder ticks (fewer than 32768), a [check_stop_conditions] coming at
    most [ms_to_cycles(1000)] ticks after the last of them stops the motor
    with ErrorState = SWITCH_FAULT. *)
Theorem homing_overrun_is_switch_fault
    (p1 p2 p : Pins) (ps : list Pins) (m : Machine) :
  error_ (screen m) <> ERR_SWITCH ->
  motor_dir_ (screen m) <> DIR_UP ->
  endswitch_in p1 = false ->
  endswitch_in p2 = false ->
  262 <= Z.of_nat (length ps) < 32768 ->
  Clock.since p (last (map Clock.now ps) (Clock.now p2))
  <= Clock.ms_to_cycles 1000 ->
  let r := run (OpGoHome p1 p2 :: map OpRotationTick ps
                ++ [OpCheckStopConditions p]) m in
  error_ (screen r) = ERR_SWITCH
  /\ motor_dir_ (screen r) = DIR_NEUTRAL
  /\ motor_up_output r = false
  /\ motor_dn_output r = false.
Proof.
  intros He Hd H1 H2 Hn Ht r. subst r.
  change (run (OpGoHome p1 p2 :: ?l) m) with (run l (go_home p1 p2 m)).
  rewrite run_app, run_rotation_ticks.
  destruct (homing_run p1 p2 ps m He Hd H1 H2) as [Ee [Ed [Ep El]]];
    [change (2 ^ 15) with 32768; lia |].
  set (m1 := rotation_ticks ps (go_home p1 p2 m)) in *.
  cbn [run fold_left step].
  rewrite (check_stop_conditions_overrun p m1).
  - destruct (enter_error_state_stop ERR_SWITCH p m1)
      as [Ce [Cd [_ [Cu Cn]]]]; [congruence | now repeat split].
  - exact Ed.
  - now rewrite El.
  - rewrite Ep. unfold SCREEN_DN_STOP_THRESHOLD, SCREEN_UP_STOP_THRESHOLD.
    lia.
Qed.

Lemma homing_overrun_is_switch_fault_witness :
  error_ (screen (run (OpGoHome (at_tick 0) (at_tick 0)
                       :: map OpRotationTick (repeat (at_tick 7) 262)
                       ++ [OpCheckStopConditions (at_tick 30)])
                    (main_init 0 0))) = ERR_SWITCH.
Proof.
  apply (homing_overrun_is_switch_fault (at_tick 0) (at_tick 0) (at_tick 30)
           (repeat (at_tick 7) 262) (main_init 0 0)).
  - cbn. discriminate.
  - cbn. discriminate.
  - reflexivity.
  - reflexivity.
  - rewrite repeat_length. cbn. lia.
  - vm_compute. discriminate.
Defined.

(** ** Infrared decoder: the command table *)

(** X16: [DecodeInfrared] returns a command exactly for the frames that
    pass its preamble test and whose last two bytes are the code of that
    command; every command it accepts has a last byte that is the
    complement of the byte before it. *)
Theorem DecodeInfrared_exact (buffer : list Z) (b : Button) :
  b <> BUTTON_UNKNOWN ->
  (DecodeInfrared buffer = b <->
   preamble_passes buffer
   /\ button_code b = Some (byte_at buffer 2, byte_at buffer 3))
  /\ (DecodeInfrared buffer = b ->
      byte_at buffer 3 = 255 - byte_at buffer 2).
Proof.
  intros Hb. unfold DecodeInfrared, preamble_passes. cbv zeta.
  set (u := byte_at buffer 2). set (l := byte_at buffer 3).
  destruct (byte_at buffer 0 =? 0xE0) eqn:E0;
    destruct (byte_at buffer 1 =? 0xD5) eqn:E1; cbn [negb andb];
    rewrite ?Z.eqb_eq, ?Z.eqb_neq in E0, E1.
  4: { split; [split |]; [congruence | | congruence].
       intros [[H | H] _]; contradiction. }
  all: destruct ((u =? 4) && (l =? 251)) eqn:T1;
    [| destruct ((u =? 68) && (l =? 187)) eqn:T2;
       [| destruct ((u =? 6) && (l =? 249)) eqn:T3;
          [| destruct ((u =? 38) && (l =? 217)) eqn:T4;
             [| destruct ((u =? 80) && (l =? 175)) eqn:T5]]]];
    rewrite ?andb_true_iff, ?andb_false_iff, ?Z.eqb_eq, ?Z.eqb_neq in *;
    ((split; [split |]);
     [ intros <-;
       first [congruence | split; [tauto | cbn; f_equal; f_equal; lia]]
     | intros [_ Hc]; destruct b; cbn in Hc; try congruence;
       injection Hc as Hu Hl; first [reflexivity | exfalso; lia]
     | intros <-; first [congruence | lia] ]).
Qed.

Lemma DecodeInfrared_exact_witness :
  DecodeInfrared [0xE0; 0x00; 0x26; 0xD9] = BUTTON_DOWN.
Proof.
  apply (proj1 (DecodeInfrared_exact [0xE0; 0x00; 0x26; 0xD9] BUTTON_DOWN
                  ltac:(discriminate))).
  split; [left |]; reflexivity.
Defined.

(** ** Infrared receiver: the busy loops *)

Lemma end_of_signal_value : end_of_signal = 12000.
Proof. reflexivity. Qed.

Lemma lo_hi_bit_threshold_value : lo_hi_bit_threshold = 1016.
Proof. reflexivity. Qed.

Lemma skip_low_lows (lo : nat) (rest : list bool) :
  skip_low (repeat false lo ++ true :: rest) = Some rest.
Proof. induction lo as [| lo IH]; [reflexivity | exact IH]. Qed.

(** A high phase that a low sample ends before the bound. *)
Lemma count_high_run (hi : nat) (count : Z) (rest : list bool) :
  0 <= count ->
  count + Z.of_nat hi < end_of_signal ->
  count_high (repeat true hi ++ false :: rest) count
  = Some (count + Z.of_nat hi, rest).
Proof.
  revert count. induction hi as [| hi IH]; intros count H0 Hlt.
  - cbn. now rewrite Z.add_0_r.
  - cbn [repeat app count_high].
    replace (count <? end_of_signal) with true
      by (symmetry; apply Z.ltb_lt; lia).
    cbn [andb]. rewrite end_of_signal_value in *.
    unfold wrap16. rewrite Z.mod_small by (change (2 ^ 16) with 65536; lia).
    rewrite IH by lia. f_equal. f_equal. lia.
Qed.

(** A high phase that outlasts the bound: the loop stops at the bound,
    having polled one sample more. *)
Lemma count_high_bound (hi : nat) (count : Z) (s : bool) (rest : list bool) :
  0 <= count ->
  count + Z.of_nat hi = end_of_signal ->
  count_high (repeat true hi ++ s :: rest) count = Some (end_of_signal, rest).
Proof.
  revert count. induction hi as [| hi IH]; intros count H0 Heq.
  - cbn [repeat app count_high]. rewrite Z.add_0_r in Heq. subst count.
    rewrite Z.ltb_irrefl, andb_false_r. reflexivity.
  - cbn [repeat app count_high].
    replace (count <? end_of_signal) with true
      by (symmetry; apply Z.ltb_lt; lia).
    cbn [andb]. rewrite end_of_signal_value in *.
    unfold wrap16. rewrite Z.mod_small by (change (2 ^ 16) with 65536; lia).
    apply IH; lia.
Qed.

(** One round of the loop on one pulse. *)
Lemma read_loop_pulse (fuel lo hi : nat) (rest : list bool) (r : Reader) :
  read r < 4 ->
  Z.of_nat hi < end_of_signal ->
  read_loop (S fuel) (pulse lo hi ++ rest) r
  = match bit_step (Z.of_nat hi) r with
    | Break r' => Returned (r', rest)
    | Continue r' => read_loop fuel rest r'
    end.
Proof.
  intros Hr Hhi. cbn [read_loop].
  apply Z.ltb_lt in Hr. rewrite Hr.
  unfold pulse. cbn [repeat app]. rewrite <- !app_assoc. cbn [app].
  rewrite skip_low_lows, <- app_assoc. cbn [app].
  rewrite count_high_run by lia. reflexivity.
Qed.

(** One round of the loop on the end of the signal. *)
Lemma read_loop_end_pulse
    (fuel lo : nat) (s : bool) (rest : list bool) (r : Reader) :
  read r < 4 ->
  read_loop (S fuel) (end_pulse lo s ++ rest) r = Returned (r, rest).
Proof.
  intros Hr. cbn [read_loop].
  apply Z.ltb_lt in Hr. rewrite Hr.
  unfold end_pulse. cbn [repeat app]. rewrite <- !app_assoc. cbn [app].
  rewrite skip_low_lows, <- app_assoc. cbn [app].
  rewrite count_high_bound
    by (vm_compute; first [reflexivity | discriminate]).
  unfold bit_step. rewrite Z.leb_refl. reflexivity.
Qed.

Lemma store_length (i : nat) (v : Z) (l : list Z) :
  length (store i v l) = length l.
Proof.
  revert i. induction l as [| a l IH]; intros [| i]; cbn; congruence.
Qed.

Lemma store_middle (vs : list Z) (v x : Z) (tl : list Z) :
  store (length vs) v (vs ++ x :: tl) = vs ++ v :: tl.
Proof. induction vs as [| a vs IH]; cbn; congruence. Qed.

Lemma byte_at_middle (vs : list Z) (x : Z) (tl : list Z) :
  byte_at (vs ++ x :: tl) (length vs) = x.
Proof.
  unfold byte_at. induction vs as [| a vs IH]; [reflexivity | exact IH].
Qed.

Lemma store_after (vs : list Z) (w : Z) (tl : list Z) :
  store (S (length vs)) 0 (vs ++ w :: tl) = vs ++ w :: store 0 0 tl.
Proof.
  induction vs as [| a vs IH]; [now destruct tl |].
  change (store (S (length (a :: vs))) 0 ((a :: vs) ++ w :: tl))
    with (a :: store (S (length vs)) 0 (vs ++ w :: tl)).
  now rewrite IH.
Qed.

(** One bit, the reader pointing at the byte [v] it is filling. *)
Lemma bit_step_middle (count k cb v : Z) (vs tl : list Z) :
  count < end_of_signal ->
  bit_step count {| read := k; current_bit := cb;
                    buffer_pos := length vs; bytes := vs ++ v :: tl |}
  = let v' := if lo_hi_bit_threshold <? count
              then wrap8 (Z.lor v cb) else v in
    let cb' := wrap8 (Z.shiftr cb 1) in
    if cb' =? 0 then
      if wrap8 (k + 1) =? 4
      then Break {| read := wrap8 (k + 1); current_bit := 0x80;
                    buffer_pos := length vs;
                    bytes := vs ++ v' :: tl |}
      else Continue {| read := wrap8 (k + 1); current_bit := 0x80;
                       buffer_pos := S (length vs);
                       bytes := vs ++ v' :: store 0 0 tl |}
    else Continue {| read := k; current_bit := cb';
                     buffer_pos := length vs;
                     bytes := vs ++ v' :: tl |}.
Proof.
  intros Hc. unfold bit_step.
  replace (end_of_signal <=? count) with false
    by (symmetry; apply Z.leb_gt; exact Hc).
  cbn [read current_bit buffer_pos bytes]. cbv zeta.
  rewrite byte_at_middle, store_middle.
  destruct (lo_hi_bit_threshold <? count);
    destruct (wrap8 (Z.shiftr cb 1) =? 0); try reflexivity;
    destruct (wrap8 (k + 1) =? 4); try reflexivity;
    now rewrite store_after.
Qed.

Lemma pulses_cons (lh : nat * nat) (ps : list (nat * nat)) :
  pulses (lh :: ps) = pulse (fst lh) (snd lh) ++ pulses ps.
Proof. reflexivity. Qed.

Lemma byte_of_bits_8 (b7 b6 b5 b4 b3 b2 b1 b0 : bool) :
  (let v7 := if b7 then wrap8 (Z.lor 0 128) else 0 in
   let v6 := if b6 then wrap8 (Z.lor v7 64) else v7 in
   let v5 := if b5 then wrap8 (Z.lor v6 32) else v6 in
   let v4 := if b4 then wrap8 (Z.lor v5 16) else v5 in
   let v3 := if b3 then wrap8 (Z.lor v4 8) else v4 in
   let v2 := if b2 then wrap8 (Z.lor v3 4) else v3 in
   let v1 := if b1 then wrap8 (Z.lor v2 2) else v2 in
   if b0 then wrap8 (Z.lor v1 1) else v1)
  = byte_of_bits [b7; b6; b5; b4; b3; b2; b1; b0].
Proof.
  destruct b7, b6, b5, b4, b3, b2, b1, b0; reflexivity.
Qed.

Ltac one_bit :=
  rewrite pulses_cons, <- app_assoc, read_loop_pulse
    by (cbn [read fst snd]; lia);
  cbn [fst snd];
  rewrite bit_step_middle by lia;
  cbv zeta;
  match goal with
  | |- context [wrap8 (Z.shiftr ?c 1) =? 0] =>
      let c' := eval vm_compute in (wrap8 (Z.shiftr c 1)) in
      change (wrap8 (Z.shiftr c 1)) with c';
      let z := eval vm_compute in (c' =? 0) in
      change (c' =? 0) with z
  end;
  cbv iota.

(** Eight rounds of the loop read one byte into the place the reader
    points at. *)
Lemma read_loop_byte
    (fuel : nat) (group : list (nat * nat)) (k : Z)
    (vs tl : list Z) (rest : list bool) :
  byte_group group ->
  0 <= k < 4 ->
  read_loop (8 + fuel) (pulses group ++ rest)
    {| read := k; current_bit := 0x80;
       buffer_pos := length vs; bytes := vs ++ 0 :: tl |}
  = if k + 1 =? 4
    then Returned ({| read := k + 1; current_bit := 0x80;
                      buffer_pos := length vs;
                      bytes := vs ++ byte_of_group group :: tl |}, rest)
    else read_loop fuel rest
           {| read := k + 1; current_bit := 0x80;
              buffer_pos := S (length vs);
              bytes := vs ++ byte_of_group group :: store 0 0 tl |}.
Proof.
  intros [Hlen Hall] Hk.
  destruct group as [| [l7 h7] [| [l6 h6] [| [l5 h5] [| [l4 h4]
    [| [l3 h3] [| [l2 h2] [| [l1 h1] [| [l0 h0] [| ? ?]]]]]]]]];
    try discriminate Hlen.
  repeat match goal with
         | H : Forall _ (_ :: _) |- _ => inversion H; subst; clear H
         end.
  cbn [snd] in *.
  change (8 + fuel)%nat with (S (S (S (S (S (S (S (S fuel)))))))).
  do 8 one_bit.
  change (pulses [] ++ rest) with rest.
  unfold byte_of_group. cbn [map snd]. unfold is_long.
  rewrite <- byte_of_bits_8. cbv zeta.
  replace (wrap8 (k + 1)) with (k + 1)
    by (unfold wrap8; rewrite Z.mod_small;
        [reflexivity | change (2 ^ 8) with 256; lia]).
  destruct (k + 1 =? 4); reflexivity.
Qed.

Ltac one_byte f g k vs tl H :=
  etransitivity; [apply (read_loop_byte f g k vs tl _ H); lia |];
  let k1 := eval vm_compute in (k + 1) in
  change (k + 1) with k1;
  let z := eval vm_compute in (k1 =? 4) in
  change (k1 =? 4) with z;
  cbv iota; cbn [app length store].

(** Four groups of eight pulses fill the buffer and end the loop. *)
Lemma read_loop_frame
    (g0 g1 g2 g3 : list (nat * nat)) (a b c d : Z) (rest : list bool) :
  byte_group g0 -> byte_group g1 -> byte_group g2 -> byte_group g3 ->
  read_loop 32 (pulses g0 ++ pulses g1 ++ pulses g2 ++ pulses g3 ++ rest)
    {| read := 0; current_bit := 0x80; buffer_pos := 0;
       bytes := store 0 0 [a; b; c; d] |}
  = Returned ({| read := 4; current_bit := 0x80; buffer_pos := 3;
                 bytes := [byte_of_group g0; byte_of_group g1;
                           byte_of_group g2; byte_of_group g3] |}, rest).
Proof.
  intros H0 H1 H2 H3. cbn [store].
  one_byte 24%nat g0 0 (@nil Z) [b; c; d] H0.
  one_byte 16%nat g1 1 [byte_of_group g0] [c; d] H1.
  one_byte 8%nat g2 2 [byte_of_group g0; byte_of_group g1] [d] H2.
  one_byte 0%nat g3 3
    [byte_of_group g0; byte_of_group g1; byte_of_group g2] (@nil Z) H3.
  reflexivity.
Qed.

(** X17: a complete transmission is received bit for bit.  For four
    groups of eight pulses, each high phase shorter than the end-of-signal
    bound, [read_infrared] returns 4, leaves in the buffer the four bytes
    whose bits, most significant first, say which pulses were longer than
    the threshold, and has polled the line exactly up to the end of the
    last pulse. *)
Theorem read_infrared_frame
    (g0 g1 g2 g3 : list (nat * nat)) (buffer : list Z) (rest : list bool) :
  byte_group g0 -> byte_group g1 -> byte_group g2 -> byte_group g3 ->
  length buffer = 4%nat ->
  read_infrared
    (pulses g0 ++ pulses g1 ++ pulses g2 ++ pulses g3 ++ rest) buffer
  = Returned (4, [byte_of_group g0; byte_of_group g1;
                  byte_of_group g2; byte_of_group g3], rest).
Proof.
  intros H0 H1 H2 H3 Hlen.
  destruct buffer as [| a [| b [| c [| d [| ? ?]]]]]; try discriminate Hlen.
  unfold read_infrared. now rewrite read_loop_frame.
Qed.

Lemma example_group_ok (b : Z) : byte_group (example_group b).
Proof.
  split; [reflexivity |].
  unfold example_group, bits_of_byte. cbn [map].
  repeat constructor; cbn [snd]; destruct (Z.testbit b _); reflexivity.
Qed.

Lemma read_infrared_frame_witness :
  read_infrared
    (pulses (example_group 0xE0) ++ pulses (example_group 0xD5)
     ++ pulses (example_group 0x44) ++ pulses (example_group 0xBB) ++ [])
    [0; 0; 0; 0]
  = Returned (4, [byte_of_group (example_group 0xE0);
                  byte_of_group (example_group 0xD5);
                  byte_of_group (example_group 0x44);
                  byte_of_group (example_group 0xBB)], []).
Proof.
  apply (read_infrared_frame (example_group 0xE0) (example_group 0xD5)
           (example_group 0x44) (example_group 0xBB) [0; 0; 0; 0] []).
  - apply example_group_ok.
  - apply example_group_ok.
  - apply example_group_ok.
  - apply example_group_ok.
  - reflexivity.
Defined.

Lemma byte_of_bits_of_byte (b : Z) :
  0 <= b < 256 -> byte_of_bits (bits_of_byte b) = b.
Proof.
  intros Hb.
  assert (Hall : forallb (fun n => byte_of_bits (bits_of_byte (Z.of_nat n))
                                   =? Z.of_nat n) (seq 0 256) = true)
    by (vm_compute; reflexivity).
  rewrite forallb_forall in Hall.
  specialize (Hall (Z.to_nat b)).
  rewrite Z2Nat.id in Hall by lia.
  apply Z.eqb_eq, Hall, in_seq. lia.
Qed.

Lemma sent_group (gap short long : nat) (b : Z) :
  Z.of_nat short <= lo_hi_bit_threshold < Z.of_nat long ->
  Z.of_nat long < end_of_signal ->
  0 <= b < 256 ->
  let group := map (fun bit : bool => (gap, if bit then long else short))
                   (bits_of_byte b) in
  byte_group group /\ byte_of_group group = b.
Proof.
  intros Ht He Hb group. subst group. split.
  - split; [reflexivity |].
    unfold bits_of_byte. cbn [map].
    repeat constructor; cbn [snd]; destruct (Z.testbit b _); lia.
  - unfold byte_of_group. rewrite map_map. cbn [snd].
    rewrite <- (byte_of_bits_of_byte b Hb) at 2. f_equal.
    rewrite <- (map_id (bits_of_byte b)) at 2.
    apply map_ext. intros [|]; unfold is_long.
    + apply Z.ltb_lt. lia.
    + apply Z.ltb_ge. lia.
Qed.

Lemma read_loop_sent_frame
    (gap short long : nat) (b0 b1 b2 b3 a b c d : Z) (rest : list bool) :
  Z.of_nat short <= lo_hi_bit_threshold < Z.of_nat long ->
  Z.of_nat long < end_of_signal ->
  0 <= b0 < 256 -> 0 <= b1 < 256 -> 0 <= b2 < 256 -> 0 <= b3 < 256 ->
  read_loop 32 (send_frame gap short long [b0; b1; b2; b3] ++ rest)
    {| read := 0; current_bit := 0x80; buffer_pos := 0;
       bytes := store 0 0 [a; b; c; d] |}
  = Returned ({| read := 4; current_bit := 0x80; buffer_pos := 3;
                 bytes := [b0; b1; b2; b3] |}, rest).
Proof.
  intros Ht He H0 H1 H2 H3.
  destruct (sent_group gap short long b0 Ht He H0) as [G0 E0].
  destruct (sent_group gap short long b1 Ht He H1) as [G1 E1].
  destruct (sent_group gap short long b2 Ht He H2) as [G2 E2].
  destruct (sent_group gap short long b3 Ht He H3) as [G3 E3].
  unfold send_frame, send_byte. cbn [map concat].
  rewrite app_nil_r, <- !app_assoc.
  rewrite (read_loop_frame _ _ _ _ a b c d rest G0 G1 G2 G3).
  now rewrite E0, E1, E2, E3.
Qed.

(** X18: sending and receiving a frame gives the frame back.  A sender
    that spends at most [lo_hi_bit_threshold] counted samples on a zero,
    more than that but fewer than [end_of_signal] on a one, and any number
    of low samples in front of each bit, gets its four bytes into the
    buffer unchanged, and [read_infrared] returns 4. *)
Theorem read_infrared_send_frame
    (gap short long : nat) (b0 b1 b2 b3 : Z)
    (buffer : list Z) (rest : list bool) :
  Z.of_nat short <= lo_hi_bit_threshold < Z.of_nat long ->
  Z.of_nat long < end_of_signal ->
  0 <= b0 < 256 -> 0 <= b1 < 256 -> 0 <= b2 < 256 -> 0 <= b3 < 256 ->
  length buffer = 4%nat ->
  read_infrared (send_frame gap short long [b0; b1; b2; b3] ++ rest) buffer
  = Returned (4, [b0; b1; b2; b3], rest).
Proof.
  intros Ht He H0 H1 H2 H3 Hlen.
  destruct buffer as [| a [| b [| c [| d [| ? ?]]]]]; try discriminate Hlen.
  unfold read_infrared.
  now rewrite (read_loop_sent_frame gap short long b0 b1 b2 b3 a b c d rest).
Qed.

Lemma read_infrared_send_frame_witness :
  read_infrared (send_frame 2 500 1500 [0xE0; 0xD5; 0x06; 0xF9] ++ [])
    [0; 0; 0; 0]
  = Returned (4, [0xE0; 0xD5; 0x06; 0xF9], []).
Proof.
  apply (read_infrared_send_frame 2 500 1500 0xE0 0xD5 0x06 0xF9
           [0; 0; 0; 0] []);
    first [reflexivity | vm_compute; split; [discriminate | reflexivity]
          | lia].
Defined.

Lemma read_loop_short
    (groups : list (list (nat * nat))) (lo : nat) (s : bool)
    (a b c d : Z) (rest : list bool) :
  Forall byte_group groups ->
  (length groups <= 3)%nat ->
  read_loop 32 (concat (map pulses groups) ++ end_pulse lo s ++ rest)
    {| read := 0; current_bit := 0x80; buffer_pos := 0;
       bytes := store 0 0 [a; b; c; d] |}
  = Returned ({| read := Z.of_nat (length groups);
                 current_bit := 0x80;
                 buffer_pos := length groups;
                 bytes := map byte_of_group groups
                          ++ 0 :: skipn (S (length groups)) [a; b; c; d] |},
              rest).
Proof.
  intros Hall Hn.
  destruct groups as [| g0 [| g1 [| g2 [| g3 ?]]]];
    [| | | | cbn in Hn; lia];
    repeat match goal with
           | H : Forall _ (_ :: _) |- _ => inversion H; subst; clear H
           end;
    cbn [map concat length skipn app store Z.of_nat Pos.of_succ_nat
         Pos.succ];
    rewrite ?app_nil_r, <- ?app_assoc.
  - now rewrite read_loop_end_pulse by (cbn; lia).
  - match goal with H : byte_group g0 |- _ =>
      one_byte 24%nat g0 0 (@nil Z) [b; c; d] H end.
    now rewrite read_loop_end_pulse by (cbn; lia).
  - match goal with H : byte_group g0 |- _ =>
      one_byte 24%nat g0 0 (@nil Z) [b; c; d] H end.
    match goal with H : byte_group g1 |- _ =>
      one_byte 16%nat g1 1 [byte_of_group g0] [c; d] H end.
    now rewrite read_loop_end_pulse by (cbn; lia).
  - match goal with H : byte_group g0 |- _ =>
      one_byte 24%nat g0 0 (@nil Z) [b; c; d] H end.
    match goal with H : byte_group g1 |- _ =>
      one_byte 16%nat g1 1 [byte_of_group g0] [c; d] H end.
    match goal with H : byte_group g2 |- _ =>
      one_byte 8%nat g2 2 [byte_of_group g0; byte_of_group g1] [d] H end.
    now rewrite read_loop_end_pulse by (cbn; lia).
Qed.

(** X19: a transmission that stops early is reported as short.  After
    [n <= 3] complete groups of eight pulses, a high phase that lasts
    until the receiver has counted [end_of_signal] samples makes
    [read_infrared] return [n]; the buffer then holds the [n] bytes
    received, a zero in the next place, and what it held before after
    that. *)
Theorem read_infrared_incomplete
    (groups : list (list (nat * nat))) (lo : nat) (s : bool)
    (buffer : list Z) (rest : list bool) :
  Forall byte_group groups ->
  (length groups <= 3)%nat ->
  length buffer = 4%nat ->
  read_infrared (concat (map pulses groups) ++ end_pulse lo s ++ rest) buffer
  = Returned (Z.of_nat (length groups),
              map byte_of_group groups
              ++ 0 :: skipn (S (length groups)) buffer,
              rest).
Proof.
  intros Hall Hn Hlen.
  destruct buffer as [| a [| b [| c [| d [| ? ?]]]]]; try discriminate Hlen.
  unfold read_infrared.
  now rewrite (read_loop_short groups lo s a b c d rest Hall Hn).
Qed.

Lemma read_infrared_incomplete_witness :
  read_infrared
    (concat (map pulses [example_group 0xE0; example_group 0xD5])
     ++ end_pulse 3 true ++ [])
    [7; 7; 7; 7]
  = Returned (Z.of_nat (length [example_group 0xE0; example_group 0xD5]),
              map byte_of_group [example_group 0xE0; example_group 0xD5]
              ++ 0 :: skipn (S (length [example_group 0xE0;
                                        example_group 0xD5])) [7; 7; 7; 7],
              []).
Proof.
  apply (read_infrared_incomplete
           [example_group 0xE0; example_group 0xD5] 3 true [7; 7; 7; 7] []).
  - repeat constructor; apply example_group_ok.
  - cbn. lia.
  - reflexivity.
Defined.

(** ** Infrared receiver: any signal *)

Lemma skip_low_suffix (ir ir1 : list bool) :
  skip_low ir = Some ir1 -> exists used, ir = used ++ ir1.
Proof.
  revert ir1. induction ir as [| s ir IH]; intros ir1 H; [discriminate |].
  cbn in H. destruct s; cbn in H.
  - injection H as <-. now exists [true].
  - destruct (IH ir1 H) as [used ->]. now exists (false :: used).
Qed.

Lemma count_high_suffix (ir : list bool) (count c : Z) (ir2 : list bool) :
  count_high ir count = Some (c, ir2) -> exists used, ir = used ++ ir2.
Proof.
  revert count. induction ir as [| s ir IH]; intros count H; [discriminate |].
  cbn [count_high] in H. destruct (s && (count <? end_of_signal)).
  - destruct (IH _ H) as [used ->]. now exists (s :: used).
  - injection H as _ <-. now exists [s].
Qed.

Ltac eval_bit_step :=
  repeat match goal with
         | |- context [wrap8 (Z.shiftr ?c 1)] =>
             let c' := eval vm_compute in (wrap8 (Z.shiftr c 1)) in
             change (wrap8 (Z.shiftr c 1)) with c'
         | |- context [wrap8 (?k + 1)] =>
             let k' := eval vm_compute in (wrap8 (k + 1)) in
             change (wrap8 (k + 1)) with k'
         | |- context [?a =? ?b] =>
             let z := eval vm_compute in (a =? b) in
             change (a =? b) with z
         | |- context [Z.log2 ?c] =>
             let v := eval vm_compute in (Z.log2 c) in
             change (Z.log2 c) with v
         end;
  cbv iota.

(** Every round either ends the loop with at most four bytes read, or
    leaves the reader with one round less to go; the buffer keeps its
    length. *)
Lemma bit_step_progress (count : Z) (r : Reader) :
  reading r ->
  match bit_step count r with
  | Break r' =>
      0 <= read r' <= 4 /\ length (bytes r') = length (bytes r)
  | Continue r' =>
      reading r' /\ rounds_left r' < rounds_left r
      /\ length (bytes r') = length (bytes r)
  end.
Proof.
  destruct r as [k cb pos bs]. unfold reading, rounds_left.
  cbn [read current_bit bytes]. intros [Hk Hcb].
  unfold bit_step. cbn [read current_bit buffer_pos bytes].
  destruct (end_of_signal <=? count).
  { cbn [read bytes]. split; [| reflexivity].
    cbn in Hk. intuition lia. }
  cbv zeta.
  set (bs1 := if lo_hi_bit_threshold <? count then _ else bs).
  assert (Hlen : length bs1 = length bs)
    by (subst bs1; destruct (_ <? _); [apply store_length | reflexivity]).
  clearbody bs1.
  cbn in Hk, Hcb.
  destruct Hk as [<- | [<- | [<- | [<- | []]]]];
    destruct Hcb as [<- | [<- | [<- | [<- | [<- | [<- | [<- | [<- | []]]]]]]]];
    eval_bit_step; cbn [read current_bit bytes In];
    rewrite ?store_length; eval_bit_step;
    repeat split; try exact Hlen; try lia; tauto.
Qed.

Lemma read_loop_bounded (fuel : nat) (ir : list bool) (r : Reader) :
  reading r ->
  rounds_left r <= Z.of_nat fuel ->
  match read_loop fuel ir r with
  | Unfinished => False
  | Starved => True
  | Returned (r', rest) =>
      0 <= read r' <= 4
      /\ length (bytes r') = length (bytes r)
      /\ exists used, ir = used ++ rest
  end.
Proof.
  revert ir r. induction fuel as [| fuel IH]; intros ir r Hr Hf.
  - exfalso. destruct r as [k cb pos bs].
    destruct Hr as [Hk Hcb]. unfold rounds_left in Hf.
    cbn in Hk, Hcb, Hf.
    destruct Hk as [<- | [<- | [<- | [<- | []]]]];
      destruct Hcb
        as [<- | [<- | [<- | [<- | [<- | [<- | [<- | [<- | []]]]]]]]];
      vm_compute in Hf; congruence.
  - cbn [read_loop].
    replace (read r <? 4) with true
      by (symmetry; apply Z.ltb_lt; destruct Hr as [Hk _]; cbn in Hk;
          intuition lia).
    destruct (skip_low ir) as [ir1 |] eqn:E1; [| exact I].
    destruct (count_high ir1 0) as [[count ir2] |] eqn:E2; [| exact I].
    destruct (skip_low_suffix _ _ E1) as [u1 ->].
    destruct (count_high_suffix _ _ _ _ E2) as [u2 ->].
    pose proof (bit_step_progress count r Hr) as Hp.
    destruct (bit_step count r) as [r' | r'].
    + destruct Hp as [Hr' [Hlt Hlen]].
      specialize (IH ir2 r' Hr' ltac:(lia)).
      destruct (read_loop fuel ir2 r') as [[r'' rest] | |];
        [| exact I | exact IH].
      destruct IH as [Hb [Hl [u3 ->]]].
      split; [exact Hb |]. split; [congruence |].
      exists (u1 ++ u2 ++ u3). now rewrite <- !app_assoc.
    + destruct Hp as [Hb Hlen].
      split; [exact Hb |]. split; [exact Hlen |].
      exists (u1 ++ u2). now rewrite <- app_assoc.
Qed.

(** X20: whatever the line does, the 32 rounds of [read_infrared] are
    enough: it is either still polling when the samples end or it has
    returned, and then with a byte count between 0 and 4, a buffer as long
    as the one it was given, and the unread part of the samples. *)
Theorem read_infrared_bounded (ir : list bool) (buffer : list Z) :
  match read_infrared ir buffer with
  | Unfinished => False
  | Starved => True
  | Returned (n, buffer', rest) =>
      0 <= n <= 4
      /\ length buffer' = length buffer
      /\ exists used, ir = used ++ rest
  end.
Proof.
  unfold read_infrared.
  pose proof (read_loop_bounded 32 ir
                {| read := 0; current_bit := 0x80; buffer_pos := 0;
                   bytes := store 0 0 buffer |}) as H.
  cbn [bytes] in H. rewrite store_length in H.
  destruct (read_loop 32 ir _) as [[r' rest] | |]; apply H;
    try (split; cbn; tauto); vm_compute; discriminate.
Qed.

(** ** Button dispatch *)

(** What the dispatch does to the screen is one public operation, or
    nothing. *)
Lemma dispatch_step (b : Button) (p1 p2 : Pins) (st : Monoflop.t * Machine) :
  snd (dispatch b p1 p2 st) = snd st
  \/ (exists d, snd (dispatch b p1 p2 st) = step (OpSetDir d p1) (snd st))
  \/ (b = BUTTON_ON /\ error_ (screen (snd st)) = ERR_ROTATION
      /\ snd (dispatch b p1 p2 st) = step (OpGoHome p1 p2) (snd st)).
Proof.
  destruct st as [g m]. unfold dispatch, error. cbn [fst snd].
  destruct b; try (right; left; eexists; reflexivity); [| now left].
  destruct (error_ (screen m)) eqn:E; cbn [ErrorType_eqb snd];
    try (right; left; eexists; reflexivity).
  right; right. now repeat split.
Qed.

(** X21: a command received in full is carried out: for a frame sent with
    sound timings, [handle_infrared] returns what the dispatch makes of
    the decoded button, and has polled the line up to the end of the
    frame. *)
Theorem handle_infrared_sent_frame
    (gap short long : nat) (b0 b1 b2 b3 : Z) (p1 p2 : Pins)
    (st : Monoflop.t * Machine) (rest : list bool) :
  Z.of_nat short <= lo_hi_bit_threshold < Z.of_nat long ->
  Z.of_nat long < end_of_signal ->
  0 <= b0 < 256 -> 0 <= b1 < 256 -> 0 <= b2 < 256 -> 0 <= b3 < 256 ->
  handle_infrared (send_frame gap short long [b0; b1; b2; b3] ++ rest)
    p1 p2 st
  = Returned (dispatch (DecodeInfrared [b0; b1; b2; b3]) p1 p2 st, rest).
Proof.
  intros Ht He H0 H1 H2 H3. unfold handle_infrared, read_infrared.
  rewrite (read_loop_sent_frame gap short long b0 b1 b2 b3 0 0 0 0 rest
             Ht He H0 H1 H2 H3).
  reflexivity.
Qed.

Lemma handle_infrared_sent_frame_witness :
  handle_infrared (send_frame 2 500 1500 [0xE0; 0xD5; 0x44; 0xBB] ++ [])
    (at_tick 5) (at_tick 6) (Monoflop.Monoflop 31248, main_init 0 0)
  = Returned (dispatch (DecodeInfrared [0xE0; 0xD5; 0x44; 0xBB])
                (at_tick 5) (at_tick 6)
                (Monoflop.Monoflop 31248, main_init 0 0), []).
Proof.
  apply (handle_infrared_sent_frame 2 500 1500 0xE0 0xD5 0x44 0xBB);
    first [reflexivity | vm_compute; split; [discriminate | reflexivity]].
Defined.



(** X23: no button raises an error, and only one combination clears one:
    after the dispatch the error state is the one before, except for ON
    in the rotation fault, which ends with no error. *)
Theorem dispatch_error (b : Button) (p1 p2 : Pins) (st : Monoflop.t * Machine) :
  error_ (screen (snd (dispatch b p1 p2 st))) = error_ (screen (snd st))
  \/ (b = BUTTON_ON
      /\ error_ (screen (snd st)) = ERR_ROTATION
      /\ error_ (screen (snd (dispatch b p1 p2 st))) = ERR_NONE).
Proof.
  destruct (dispatch_step b p1 p2 st) as [E | [[d E] | [Hb [He E]]]];
    rewrite E.
  - now left.
  - left. apply set_dir_error.
  - right. split; [exact Hb |]. split; [exact He |].
    cbn [step]. unfold go_home. rewrite He. cbn [ErrorType_eqb].
    destruct (endswitch_in p1); [reflexivity |].
    now rewrite set_dir_error.
Qed.

(** X24: while an error is set the remote control cannot start the motor,
    the one way out being ON in the rotation fault: for a stopped screen
    with an error, every other button, and every button in the switch
    fault, leaves the direction NEUTRAL and the error in place. *)
Theorem dispatch_faulted_stays_stopped
    (b : Button) (p1 p2 : Pins) (st : Monoflop.t * Machine) :
  error_ (screen (snd st)) <> ERR_NONE ->
  motor_dir_ (screen (snd st)) = DIR_NEUTRAL ->
  b <> BUTTON_ON \/ error_ (screen (snd st)) = ERR_SWITCH ->
  motor_dir_ (screen (snd (dispatch b p1 p2 st))) = DIR_NEUTRAL
  /\ error_ (screen (snd (dispatch b p1 p2 st))) = error_ (screen (snd st)).
Proof.
  intros He Hd Hb.
  destruct (dispatch_step b p1 p2 st) as [E | [[d E] | [Eb [Er E]]]].
  - now rewrite E.
  - rewrite E. cbn [step]. split; [| apply set_dir_error].
    destruct (set_dir_motor_dir d p1 (snd st)) as [E' | [E' | E']].
    + now rewrite E'.
    + exact E'.
    + contradiction.
  - destruct Hb as [Hb | Hb]; congruence.
Qed.

Lemma dispatch_faulted_stays_stopped_witness :
  motor_dir_
    (screen (snd (dispatch BUTTON_OFF (at_tick 5) (at_tick 6)
                    (gate_example, rotation_fault_example))))
  = DIR_NEUTRAL
  /\ error_
       (screen (snd (dispatch BUTTON_OFF (at_tick 5) (at_tick 6)
                       (gate_example, rotation_fault_example))))
     = error_ (screen (snd (gate_example, rotation_fault_example))).
Proof.
  apply (dispatch_faulted_stays_stopped BUTTON_OFF (at_tick 5) (at_tick 6)
           (gate_example, rotation_fault_example)).
  - cbn. discriminate.
  - reflexivity.
  - left. discriminate.
Defined.

(** X25: the jog buttons work only inside the window.  With the gate
    inactive, UP and DOWN stop the motor instead of starting it, as
    UNKNOWN always does; none of the three touches the gate, so they do
    not open or extend the window either. *)
Theorem dispatch_outside_window
    (b : Button) (p1 p2 : Pins) (st : Monoflop.t * Machine) :
  (b = BUTTON_UNKNOWN
   \/ (Monoflop.is_active (fst st) = false
       /\ (b = BUTTON_UP \/ b = BUTTON_DOWN))) ->
  motor_dir_ (screen (snd (dispatch b p1 p2 st))) = DIR_NEUTRAL
  /\ fst (dispatch b p1 p2 st) = fst st.
Proof.
  destruct st as [g m]. cbn [fst snd].
  intros [-> | [Hg [-> | ->]]]; unfold dispatch; cbn [fst snd];
    rewrite ?Hg; (split; [apply set_dir_neutral_motor_dir | reflexivity]).
Qed.

Lemma dispatch_outside_window_witness :
  motor_dir_
    (screen (snd (dispatch BUTTON_DOWN (at_tick 5) (at_tick 6)
                    (Monoflop.Monoflop 31248, lowering_example))))
  = DIR_NEUTRAL
  /\ fst (dispatch BUTTON_DOWN (at_tick 5) (at_tick 6)
            (Monoflop.Monoflop 31248, lowering_example))
     = fst (Monoflop.Monoflop 31248, lowering_example).
Proof.
  apply (dispatch_outside_window BUTTON_DOWN (at_tick 5) (at_tick 6)
           (Monoflop.Monoflop 31248, lowering_example)).
  right. split; [reflexivity | now right].
Defined.

(** ** Comparator interrupt *)

Lemma ISR_ANA_COMP_fields (ACO acsr : Z) (p : Pins) (last : bool)
    (m : Machine) :
  let r := ISR_ANA_COMP ACO acsr p (last, m) in
  fst r = got_falling_edge ACO acsr
  /\ screen (snd r)
     = (if Bool.eqb (got_falling_edge ACO acsr) last
        then screen m else screen (event_rotation_tick p m))
  /\ PORTA (snd r)
     = (if got_falling_edge ACO acsr
        then port_set (PORTA m) OUT_STBIAS_A
        else port_clear (PORTA m) OUT_STBIAS_A)
  /\ PORTB (snd r) = PORTB m.
Proof.
  unfold ISR_ANA_COMP. cbn [fst snd].
  destruct (Bool.eqb (got_falling_edge ACO acsr) last) eqn:E;
    cbn [negb fst snd screen PORTA PORTB event_rotation_tick].
  - apply eqb_prop in E. now repeat split.
  - now repeat split.
Qed.

Lemma interrupts_cons (ACO : Z) (ev : Z * Pins) (evs : list (Z * Pins))
    (st : bool * Machine) :
  interrupts ACO (ev :: evs) st
  = interrupts ACO evs (ISR_ANA_COMP ACO (fst ev) (snd ev) st).
Proof. reflexivity. Qed.

(** Interrupts leave direction, error state and PORTB alone, and on PORTA
    change nothing but the bias bit. *)
Lemma interrupts_frame (ACO : Z) (evs : list (Z * Pins))
    (st : bool * Machine) :
  motor_dir_ (screen (snd (interrupts ACO evs st)))
  = motor_dir_ (screen (snd st))
  /\ error_ (screen (snd (interrupts ACO evs st)))
     = error_ (screen (snd st))
  /\ PORTB (snd (interrupts ACO evs st)) = PORTB (snd st)
  /\ (forall i, 0 <= i < 8 -> i <> Z.log2 OUT_STBIAS_A ->
      Z.testbit (PORTA (snd (interrupts ACO evs st))) i
      = Z.testbit (PORTA (snd st)) i).
Proof.
  revert st. induction evs as [| ev evs IH]; intros st;
    [now repeat split |].
  rewrite interrupts_cons.
  destruct (IH (ISR_ANA_COMP ACO (fst ev) (snd ev) st)) as [Hd [He [Hb Ha]]].
  destruct st as [last m].
  destruct (ISR_ANA_COMP_fields ACO (fst ev) (snd ev) last m)
    as [_ [Hs [Hpa Hpb]]].
  cbn [snd] in *. rewrite Hd, He, Hb, Hs, Hpb.
  split; [| split; [| split; [reflexivity |]]].
  - now destruct (Bool.eqb _ _).
  - now destruct (Bool.eqb _ _).
  - intros i Hi Hne. rewrite (Ha i Hi Hne), Hpa.
    change (Z.log2 OUT_STBIAS_A) with 0 in Hne.
    assert (Hm : Z.testbit OUT_STBIAS_A i = false).
    { unfold OUT_STBIAS_A. rewrite mask_bit by lia.
      apply Z.eqb_neq. congruence. }
    assert (Hlt : (i <? 8) = true) by (apply Z.ltb_lt; lia).
    destruct (got_falling_edge ACO (fst ev));
      rewrite ?port_set_bit, ?port_clear_bit by lia;
      rewrite Hlt, Hm; cbn [andb negb];
      rewrite ?orb_false_r, ?andb_true_r; reflexivity.
Qed.

(** X26: the interrupt handler counts level changes, not interrupts.
    Over any series of interrupts the position moves by the number of
    times the comparator reading differs from the one before it: up by
    that number while the direction is DOWN, down by it while UP (as long
    as the 16-bit position does not overflow), not at all while NEUTRAL;
    [last] ends as the final reading. *)
Theorem interrupts_count_level_changes
    (ACO : Z) (evs : list (Z * Pins)) (l0 : bool) (m : Machine) :
  let levels := map (fun ev => got_falling_edge ACO (fst ev)) evs in
  let n := Z.of_nat (level_changes l0 levels) in
  let r := interrupts ACO evs (l0, m) in
  (motor_dir_ (screen m) = DIR_DOWN ->
   - 2 ^ 15 <= pos_ (screen m) -> pos_ (screen m) + n < 2 ^ 15 ->
   pos_ (screen (snd r)) = pos_ (screen m) + n)
  /\ (motor_dir_ (screen m) = DIR_UP ->
      pos_ (screen m) < 2 ^ 15 -> - 2 ^ 15 <= pos_ (screen m) - n ->
      pos_ (screen (snd r)) = pos_ (screen m) - n)
  /\ (motor_dir_ (screen m) = DIR_NEUTRAL ->
      pos_ (screen (snd r)) = pos_ (screen m))
  /\ fst r = last levels l0.
Proof.
  cbv zeta. revert l0 m.
  induction evs as [| ev evs IH]; intros l0 m.
  - cbn. repeat split; intros; lia.
  - rewrite interrupts_cons. cbn [map level_changes].
    rewrite last_cons_default.
    set (l1 := got_falling_edge ACO (fst ev)).
    destruct (ISR_ANA_COMP_fields ACO (fst ev) (snd ev) l0 m)
      as [Hl [Hs [_ _]]].
    fold l1 in Hl, Hs.
    destruct (ISR_ANA_COMP ACO (fst ev) (snd ev) (l0, m)) as [l1' m1].
    cbn [fst snd] in Hl, Hs. subst l1'.
    destruct (IH l1 m1) as [Hdn [Hup [Hne Hlast]]].
    rewrite Hs in Hdn, Hup, Hne. rewrite Hlast.
    rewrite Nat2Z.inj_add.
    destruct (Bool.eqb l1 l0);
      cbn [event_rotation_tick screen pos_ motor_dir_] in *;
      (split; [| split; [| split; [| reflexivity]]]); intros Hd;
      rewrite ?Hd in *; cbn [Z.of_nat] in *.
    + intros. rewrite Hdn by first [reflexivity | lia]. lia.
    + intros. rewrite Hup by first [reflexivity | lia]. lia.
    + now apply Hne.
    + intros.
      rewrite Hdn
        by (rewrite ?swrap16_small by lia; first [reflexivity | lia]).
      rewrite swrap16_small; lia.
    + intros.
      rewrite Hup
        by (rewrite ?swrap16_small by lia; first [reflexivity | lia]).
      rewrite swrap16_small; lia.
    + now apply Hne.
Qed.

Lemma interrupts_count_level_changes_witness :
  pos_ (screen (snd (interrupts 5
                       [(0, at_tick 1); (0, at_tick 2); (32, at_tick 3);
                        (32, at_tick 4); (0, at_tick 5)]
                       (false, lowering_example))))
  = 100 + 3.
Proof.
  apply (proj1 (interrupts_count_level_changes 5
                  [(0, at_tick 1); (0, at_tick 2); (32, at_tick 3);
                   (32, at_tick 4); (0, at_tick 5)]
                  false lowering_example)).
  - reflexivity.
  - vm_compute. discriminate.
  - vm_compute. reflexivity.
Defined.

(** X27: the handler sets the Schmitt-trigger bias to the level it has
    just read (high on a falling edge, low on a rising one) and touches
    no other output: the other bits of PORTA and all of PORTB are as
    before, the two motor lines among them. *)
Theorem ISR_ANA_COMP_bias (ACO acsr : Z) (p : Pins) (st : bool * Machine) :
  Z.testbit (PORTA (snd (ISR_ANA_COMP ACO acsr p st)))
    (Z.log2 OUT_STBIAS_A)
  = got_falling_edge ACO acsr
  /\ (forall i, 0 <= i < 8 -> i <> Z.log2 OUT_STBIAS_A ->
      Z.testbit (PORTA (snd (ISR_ANA_COMP ACO acsr p st))) i
      = Z.testbit (PORTA (snd st)) i)
  /\ PORTB (snd (ISR_ANA_COMP ACO acsr p st)) = PORTB (snd st).
Proof.
  destruct st as [l0 m].
  destruct (ISR_ANA_COMP_fields ACO acsr p l0 m) as [_ [_ [Hpa Hpb]]].
  cbn [snd]. split; [| split; [| exact Hpb]].
  - rewrite Hpa. change (Z.log2 OUT_STBIAS_A) with 0.
    destruct (got_falling_edge ACO acsr);
      rewrite ?port_set_bit, ?port_clear_bit by lia; cbn;
      rewrite ?orb_true_r, ?andb_false_r; reflexivity.
  - intros i Hi Hne.
    apply (interrupts_frame ACO [(acsr, p)] (l0, m)); assumption.
Qed.

Lemma ISR_ANA_COMP_bias_witness :
  Z.testbit
    (PORTA (snd (ISR_ANA_COMP 5 0 (at_tick 1) (false, lowering_example)))) 6
  = Z.testbit (PORTA (snd (false, lowering_example))) 6.
Proof.
  apply (proj1 (proj2 (ISR_ANA_COMP_bias 5 0 (at_tick 1)
                         (false, lowering_example)))).
  - lia.
  - vm_compute. discriminate.
Defined.

(** ** Main loop *)

Lemma status_led_frame (b : bool) (m : Machine) :
  screen (status_led b m) = screen m
  /\ PORTB (status_led b m) = PORTB m
  /\ status_led_output (status_led b m) = b
  /\ (forall i, 0 <= i < 8 -> i <> Z.log2 OUT_STATUSLED_A ->
      Z.testbit (PORTA (status_led b m)) i = Z.testbit (PORTA m) i).
Proof.
  unfold status_led, status_led_output. cbn [screen PORTA PORTB].
  change (Z.log2 OUT_STATUSLED_A) with 4.
  split; [reflexivity |]. split; [reflexivity |]. split.
  - destruct b; rewrite ?port_set_bit, ?port_clear_bit by lia; cbn;
      rewrite ?orb_true_r, ?andb_false_r; reflexivity.
  - intros i Hi Hne.
    assert (Hm : Z.testbit OUT_STATUSLED_A i = false).
    { unfold OUT_STATUSLED_A. rewrite mask_bit by lia.
      apply Z.eqb_neq. congruence. }
    assert (Hlt : (i <? 8) = true) by (apply Z.ltb_lt; lia).
    destruct b; rewrite ?port_set_bit, ?port_clear_bit by lia;
      rewrite Hlt, Hm; cbn [andb negb];
      rewrite ?orb_false_r, ?andb_true_r; reflexivity.
Qed.

Lemma land_pow2_testbit (x k : Z) :
  0 <= k -> negb (Z.land x (2 ^ k) =? 0) = Z.testbit x k.
Proof.
  intros Hk. destruct (Z.testbit x k) eqn:E.
  - apply negb_true_iff, Z.eqb_neq. intros H0.
    assert (Hb : Z.testbit (Z.land x (2 ^ k)) k = true)
      by (rewrite Z.land_spec, E, Z.pow2_bits_true by lia; reflexivity).
    rewrite H0, Z.bits_0 in Hb. discriminate.
  - apply negb_false_iff, Z.eqb_eq, Z.bits_inj'. intros n Hn.
    rewrite Z.land_spec, Z.bits_0, Z.pow2_bits_eqb by lia.
    destruct (Z.eqb_spec k n) as [<- | _];
      [now rewrite E | apply andb_false_r].
Qed.

(** Any property of the machine that the public operations, the
    interrupt handler and the LED switch keep is kept by the main loop. *)
Section LoopInvariant.

Variable ACO : Z.
Variable P : Machine -> Prop.
Hypothesis P_step : forall o m, P m -> P (step o m).
Hypothesis P_interrupts :
  forall evs st, P (snd st) -> P (snd (interrupts ACO evs st)).
Hypothesis P_status_led : forall b m, P m -> P (status_led b m).

Lemma dispatch_keeps (b : Button) (p1 p2 : Pins) (st : Monoflop.t * Machine) :
  P (snd st) -> P (snd (dispatch b p1 p2 st)).
Proof.
  intros H.
  destruct (dispatch_step b p1 p2 st) as [E | [[d E] | [_ [_ E]]]];
    rewrite E; [exact H | now apply P_step ..].
Qed.

Lemma handle_infrared_keeps
    (ir : list bool) (p1 p2 : Pins) (st st' : Monoflop.t * Machine)
    (rest : list bool) :
  handle_infrared ir p1 p2 st = Returned (st', rest) ->
  P (snd st) -> P (snd st').
Proof.
  unfold handle_infrared. intros H HP.
  destruct (read_infrared ir [0; 0; 0; 0]) as [[[n bs] rest'] | |];
    try discriminate H.
  destruct (negb (n =? 4)); injection H as <- _;
    [exact HP | now apply dispatch_keeps].
Qed.

Lemma take_interrupts_keeps (evs : list (Z * Pins)) (s : Firmware) :
  P (machine s) -> P (machine (take_interrupts ACO evs s)).
Proof.
  intros H. unfold take_interrupts. cbn [machine].
  now apply (P_interrupts evs (isr_last s, machine s)).
Qed.

Lemma before_infrared_keeps (i : Round) (s : Firmware) :
  P (machine s) -> P (machine (before_infrared ACO i s)).
Proof.
  intros H. unfold before_infrared. cbv zeta.
  apply take_interrupts_keeps. cbn [machine].
  apply take_interrupts_keeps. cbn [machine].
  apply (P_step (OpCheckStopConditions (pins_check i))).
  now apply take_interrupts_keeps.
Qed.

Lemma after_infrared_keeps (i : Round) (s : Firmware) :
  P (machine s) -> P (machine (after_infrared ACO i s)).
Proof.
  intros H. unfold after_infrared. cbv zeta. cbn [machine].
  apply P_status_led, take_interrupts_keeps.
  destruct (endswitch_in (pins_endswitch i)); cbn [machine].
  - apply (P_step OpEndswitchTriggered). now apply take_interrupts_keeps.
  - now apply take_interrupts_keeps.
Qed.

Lemma loop_round_keeps (i : Round) (s s' : Firmware) :
  loop_round ACO i s = Returned s' -> P (machine s) -> P (machine s').
Proof.
  unfold loop_round. cbv zeta. intros H HP.
  pose proof (before_infrared_keeps i s HP) as H5.
  destruct (ir_samples i) as [| poll ir]; [discriminate H |].
  destruct (negb poll).
  - destruct (handle_infrared ir (pins_command1 i) (pins_command2 i) _)
      as [[st rest] | |] eqn:Eh; try discriminate H.
    injection H as <-. apply after_infrared_keeps. cbn [machine].
    apply (handle_infrared_keeps _ _ _ _ _ _ Eh). exact H5.
  - injection H as <-. now apply after_infrared_keeps.
Qed.

Lemma loop_rounds_keeps (rounds : list Round) (s s' : Firmware) :
  loop_rounds ACO rounds s = Returned s' -> P (machine s) -> P (machine s').
Proof.
  revert s. induction rounds as [| i rounds IH]; intros s H HP.
  - injection H as <-. exact HP.
  - cbn [loop_rounds] in H.
    destruct (loop_round ACO i s) as [s1 | |] eqn:E1; try discriminate H.
    apply (IH s1 H). now apply (loop_round_keeps i s s1).
Qed.

End LoopInvariant.

Lemma interrupts_outputs (ACO : Z) (evs : list (Z * Pins))
    (st : bool * Machine) :
  motor_up_output (snd (interrupts ACO evs st)) = motor_up_output (snd st)
  /\ motor_dn_output (snd (interrupts ACO evs st))
     = motor_dn_output (snd st).
Proof.
  destruct (interrupts_frame ACO evs st) as [_ [_ [Hb Ha]]].
  unfold motor_up_output, motor_dn_output. rewrite Hb.
  split; [reflexivity |].
  apply Ha;
    [vm_compute; split; [discriminate | reflexivity]
    | vm_compute; discriminate].
Qed.

Lemma status_led_outputs (b : bool) (m : Machine) :
  motor_up_output (status_led b m) = motor_up_output m
  /\ motor_dn_output (status_led b m) = motor_dn_output m.
Proof.
  destruct (status_led_frame b m) as [_ [Hb [_ Ha]]].
  unfold motor_up_output, motor_dn_output. rewrite Hb.
  split; [reflexivity |].
  apply Ha;
    [vm_compute; split; [discriminate | reflexivity]
    | vm_compute; discriminate].
Qed.

Lemma step_safe (o : Op) (m : Machine) : safe m -> safe (step o m).
Proof.
  intros [H1 H2]. split;
    [now apply step_error_implies_neutral | now apply step_outputs_match_dir].
Qed.

Lemma interrupts_safe (ACO : Z) (evs : list (Z * Pins))
    (st : bool * Machine) :
  safe (snd st) -> safe (snd (interrupts ACO evs st)).
Proof.
  destruct (interrupts_frame ACO evs st) as [Hd [He _]].
  destruct (interrupts_outputs ACO evs st) as [Hu Hn].
  unfold safe, error_implies_neutral, outputs_match_dir.
  now rewrite Hd, He, Hu, Hn.
Qed.

Lemma status_led_safe (b : bool) (m : Machine) :
  safe m -> safe (status_led b m).
Proof.
  destruct (status_led_frame b m) as [Hs _].
  destruct (status_led_outputs b m) as [Hu Hn].
  unfold safe, error_implies_neutral, outputs_match_dir.
  now rewrite Hs, Hu, Hn.
Qed.

Lemma main_start_safe (ACO porta lut : Z) (irq : list (Z * Pins))
    (p1 p2 : Pins) :
  Z.testbit porta (Z.log2 OUT_MOT_DN_A) = false ->
  safe (machine (main_start ACO porta lut irq p1 p2)).
Proof.
  intros Hp. unfold main_start. cbv zeta. cbn [machine].
  apply (step_safe (OpGoHome p1 p2)).
  unfold take_interrupts. cbn [machine isr_last].
  apply interrupts_safe. cbn [snd].
  split; [apply main_init_error_implies_neutral |].
  split; [reflexivity |].
  unfold motor_dn_output, main_init, wrap8. cbn [PORTA screen].
  rewrite Z.testbit_mod_pow2 by lia. rewrite Hp. reflexivity.
Qed.

Lemma read_infrared_finishes (ir : list bool) (buffer : list Z) :
  read_infrared ir buffer <> Unfinished.
Proof.
  unfold read_infrared.
  pose proof (read_loop_bounded 32 ir
                {| read := 0; current_bit := 0x80; buffer_pos := 0;
                   bytes := store 0 0 buffer |}) as H.
  destruct (read_loop 32 ir _) as [[r' rest] | |]; try discriminate.
  exfalso. apply H; [split; cbn; tauto | vm_compute; discriminate].
Qed.

Lemma loop_round_finishes (ACO : Z) (i : Round) (s : Firmware) :
  loop_round ACO i s <> Unfinished.
Proof.
  unfold loop_round, handle_infrared. cbv zeta.
  destruct (ir_samples i) as [| poll ir]; [discriminate |].
  destruct (negb poll); [| discriminate].
  pose proof (read_infrared_finishes ir [0; 0; 0; 0]) as Hf.
  destruct (read_infrared ir [0; 0; 0; 0]) as [[[n bs] rest] | |];
    [| discriminate | contradiction].
  destruct (negb (n =? 4)); discriminate.
Qed.

Lemma loop_rounds_finishes (ACO : Z) (rounds : list Round) (s : Firmware) :
  loop_rounds ACO rounds s <> Unfinished.
Proof.
  revert s. induction rounds as [| i rounds IH]; intros s; [discriminate |].
  cbn [loop_rounds].
  pose proof (loop_round_finishes ACO i s) as Hf.
  destruct (loop_round ACO i s) as [s1 | |];
    [apply IH | discriminate | contradiction].
Qed.

(** X28: the whole firmware keeps the motor safe.  Started with the
    motor-down line low, after [main]'s call of [go_home] and any number
    of rounds of the main loop, with any inputs, any infrared traffic and
    interrupts in front of every statement, an error still implies a
    stopped motor, the H-bridge lines still agree with the direction, and
    so both lines are low whenever an error is set.  The rounds never run
    out of loop budget: they stop short only where the infrared samples
    given end while the receiver is still polling. *)
Theorem firmware_keeps_motor_safe
    (ACO porta lut : Z) (irq : list (Z * Pins)) (p1 p2 : Pins)
    (rounds : list Round) (s : Firmware) :
  Z.testbit porta (Z.log2 OUT_MOT_DN_A) = false ->
  loop_rounds ACO rounds (main_start ACO porta lut irq p1 p2) <> Unfinished
  /\ (loop_rounds ACO rounds (main_start ACO porta lut irq p1 p2)
      = Returned s ->
      error_implies_neutral (machine s)
      /\ outputs_match_dir (machine s)
      /\ (error_ (screen (machine s)) <> ERR_NONE ->
          motor_up_output (machine s) = false
          /\ motor_dn_output (machine s) = false)).
Proof.
  intros Hp. split; [apply loop_rounds_finishes |]. intros Hrun.
  assert (Hs : safe (machine s)).
  { apply (loop_rounds_keeps ACO safe step_safe (interrupts_safe ACO)
             status_led_safe rounds _ s Hrun).
    now apply main_start_safe. }
  destruct Hs as [H1 H2]. split; [exact H1 |]. split; [exact H2 |].
  intros He. destruct H2 as [Hu Hn]. rewrite Hu, Hn, (H1 He).
  now split.
Qed.

Lemma firmware_keeps_motor_safe_witness :
  exists s,
    loop_rounds 5 [command_round 10; quiet_round 20]
      (main_start 5 0 0 [] (at_tick 0) (at_tick 0)) = Returned s
    /\ error_implies_neutral (machine s)
    /\ outputs_match_dir (machine s).
Proof.
  eexists. split; [vm_compute; reflexivity |].
  match goal with
  | |- error_implies_neutral (machine ?s) /\ _ =>
      destruct (firmware_keeps_motor_safe 5 0 0 [] (at_tick 0) (at_tick 0)
                  [command_round 10; quiet_round 20] s)
        as [_ H]; [reflexivity |];
      destruct H as [H1 [H2 _]]; [vm_compute; reflexivity |]
  end.
  split; assumption.
Defined.

Lemma step_locked_out (o : Op) (m : Machine) :
  locked_out m -> locked_out (step o m).
Proof.
  intros [He [Hd [Hu Hn]]].
  assert (E : step o m = m \/ exists p, step o m = event_rotation_tick p m
                                        \/ step o m = with_pos 0 m).
  { destruct o as [d p | p1 p2 | p | | p]; cbn [step].
    - left. unfold set_dir. rewrite Hd.
      destruct d; cbn [Direction_eqb]; [reflexivity | |];
        unfold up_stop_condition, down_stop_condition; rewrite He;
        reflexivity.
    - left. unfold go_home. now rewrite He.
    - right. exists p. now left.
    - right. exists (at_tick 0). right.
      unfold event_endswitch_triggered. now rewrite Hd.
    - left. now apply check_stop_conditions_neutral. }
  destruct E as [-> | [p [-> | ->]]]; now repeat split.
Qed.

Lemma interrupts_locked_out (ACO : Z) (evs : list (Z * Pins))
    (st : bool * Machine) :
  locked_out (snd st) -> locked_out (snd (interrupts ACO evs st)).
Proof.
  destruct (interrupts_frame ACO evs st) as [Hd [He _]].
  destruct (interrupts_outputs ACO evs st) as [Hu Hn].
  unfold locked_out. now rewrite Hd, He, Hu, Hn.
Qed.

Lemma status_led_locked_out (b : bool) (m : Machine) :
  locked_out m -> locked_out (status_led b m).
Proof.
  destruct (status_led_frame b m) as [Hs _].
  destruct (status_led_outputs b m) as [Hu Hn].
  unfold locked_out. now rewrite Hs, Hu, Hn.
Qed.

(** X29: nothing the firmware does leaves the switch fault.  From a state
    with ErrorState = SWITCH_FAULT, the motor stopped and both H-bridge
    lines low, any number of rounds of the main loop, whatever the remote
    control sends, the encoder ticks or the endswitch does, ends in such
    a state again. *)
Theorem firmware_switch_fault_lockout
    (ACO : Z) (rounds : list Round) (s s' : Firmware) :
  locked_out (machine s) ->
  loop_rounds ACO rounds s = Returned s' ->
  locked_out (machine s').
Proof.
  intros Hl Hrun.
  exact (loop_rounds_keeps ACO locked_out step_locked_out
           (interrupts_locked_out ACO) status_led_locked_out
           rounds s s' Hrun Hl).
Qed.

Lemma firmware_switch_fault_lockout_witness :
  exists s',
    loop_rounds 5 [command_round 10; quiet_round 20]
      {| isr_last := false; gate := gate_example;
         machine := switch_fault_example |} = Returned s'
    /\ locked_out (machine s').
Proof.
  eexists. split; [vm_compute; reflexivity |].
  match goal with
  | |- locked_out (machine ?s') =>
      apply (firmware_switch_fault_lockout 5
               [command_round 10; quiet_round 20]
               {| isr_last := false; gate := gate_example;
                  machine := switch_fault_example |} s')
  end.
  - now repeat split.
  - vm_compute. reflexivity.
Defined.

(** X30: what the status LED shows at the end of a round: with no error,
    whether the gate is active; in the switch fault, bit 12 of the timer
    (slow blink); in the rotation fault, bit 10 (fast blink). *)
Theorem loop_round_status_led (ACO : Z) (i : Round) (s s' : Firmware) :
  loop_round ACO i s = Returned s' ->
  status_led_output (machine s')
  = match error_ (screen (machine s')) with
    | ERR_NONE => Monoflop.is_active (gate s')
    | ERR_SWITCH => Z.testbit (Clock.now (pins_led i)) 12
    | ERR_ROTATION => Z.testbit (Clock.now (pins_led i)) 10
    end.
Proof.
  assert (Hafter : forall s6,
             status_led_output (machine (after_infrared ACO i s6))
             = match error_ (screen (machine (after_infrared ACO i s6))) with
               | ERR_NONE =>
                   Monoflop.is_active (gate (after_infrared ACO i s6))
               | ERR_SWITCH => Z.testbit (Clock.now (pins_led i)) 12
               | ERR_ROTATION => Z.testbit (Clock.now (pins_led i)) 10
               end).
  { intros s6. unfold after_infrared. cbv zeta. cbn [machine gate].
    match goal with
    | |- context [status_led ?b ?m] =>
        destruct (status_led_frame b m) as [Hs [_ [Hled _]]]
    end.
    rewrite Hled, Hs. unfold led_condition, error.
    change 4096 with (2 ^ 12). change 1024 with (2 ^ 10).
    rewrite !land_pow2_testbit by lia. reflexivity. }
  unfold loop_round. cbv zeta. intros H.
  destruct (ir_samples i) as [| poll ir]; [discriminate H |].
  destruct (negb poll).
  - destruct (handle_infrared ir (pins_command1 i) (pins_command2 i) _)
      as [[st rest] | |]; try discriminate H.
    injection H as <-. apply Hafter.
  - injection H as <-. apply Hafter.
Qed.

Lemma loop_round_status_led_witness :
  exists s',
    loop_round 5 (quiet_round 4096)
      {| isr_last := false; gate := gate_example;
         machine := switch_fault_example |} = Returned s'
    /\ status_led_output (machine s') = true.
Proof.
  eexists. split; [vm_compute; reflexivity |].
  match goal with
  | |- status_led_output (machine ?s') = _ =>
      rewrite (loop_round_status_led 5 (quiet_round 4096)
                 {| isr_last := false; gate := gate_example;
                    machine := switch_fault_example |} s')
  end.
  - reflexivity.
  - vm_compute. reflexivity.
Defined.
